(** * Convergence control of the page scraper

    A shallow embedding of the helpers of [src/functions.ts] that decide
    when a harvesting loop stops: [deferred], [scrollUntil],
    [minMaxDates] and [dateRangeItemCounter], followed by the properties
    the specification states about them. *)

From Stdlib Require Import ZArith QArith Bool List Lia.
From stdpp Require Import gmap strings.
Import ListNotations.

Local Open Scope Z_scope.

(** ** JavaScript numbers that come out of date arithmetic *)

Module Js.

(** The result of [moment.diff]: a whole number of milliseconds, or
    [NaN] when one of the two dates is invalid. *)
Inductive number : Type :=
| Num (z : Z)
| NaN.

(** Relational operators: every comparison with [NaN] is false. *)
Definition lt (a b : number) : bool :=
  match a, b with
  | Num x, Num y => x <? y
  | _, _ => false
  end.

Definition le (a b : number) : bool :=
  match a, b with
  | Num x, Num y => x <=? y
  | _, _ => false
  end.

Definition gt (a b : number) : bool := lt b a.
Definition ge (a b : number) : bool := le b a.

(** [x ?? d]: the default is taken for [undefined] only; [NaN] is kept. *)
Definition nullish (x : option number) (d : number) : number :=
  match x with
  | Some n => n
  | None => d
  end.

(** Truthiness of an integer-valued number: [0] is the only falsy one. *)
Definition truthy (z : Z) : bool := negb (z =? 0).

(** [a / b > q] for integer-valued [a], [b] and a decimal literal [q],
    in exact rational arithmetic. (The double division of the source
    rounds correctly, so both agree as long as the counters stay
    below 2^50.) *)
Definition ratio_gt (a b : Z) (q : Q) : bool :=
  negb (Qle_bool (inject_Z a / inject_Z b) q).

End Js.

(** ** moment.js instants *)

Module Moment.

(** What [moment(value)] yields: an instant, in milliseconds since the
    epoch, or the invalid date. *)
Inductive t : Type :=
| Valid (ms : Z)
| Invalid.

(** [a.diff(b)], in milliseconds. *)
Definition diff (a b : t) : Js.number :=
  match a, b with
  | Valid x, Valid y => Js.Num (x - y)
  | _, _ => Js.NaN
  end.

Definition isValid (a : t) : bool :=
  match a with
  | Valid _ => true
  | Invalid => false
  end.

(** Order of instants; an invalid date is not ordered with anything. *)
Definition le (a b : t) : Prop :=
  match a, b with
  | Valid x, Valid y => x <= y
  | _, _ => False
  end.

Definition lt (a b : t) : Prop :=
  match a, b with
  | Valid x, Valid y => x < y
  | _, _ => False
  end.

End Moment.

(** ** [minMaxDates]: the range window *)

Module Window.

(** The object [minMaxDates] returns: its two getters. [compare] is
    the function below. *)
Record MinMaxDates : Type := mkMinMaxDates {
  minDate : option Moment.t;
  maxDate : option Moment.t
}.

Inductive result : Type :=
| Returns (w : MinMaxDates)
| Throws (minDate maxDate : Moment.t).

Section Construction.

(** The [min] and [max] of the input are [number | string |
    undefined]. [parseTimeUnit] maps a falsy one to [null]; anything
    else becomes a moment, relative to now for ["3 days"] and the
    like, through [moment(value)] otherwise. *)
Context {Raw : Type}.
Variable falsy : Raw -> bool.
Variable toMoment : Raw -> Moment.t.

Record MinMax : Type := mkMinMax {
  min : Raw;
  max : Raw
}.

Definition parseTimeUnit (value : Raw) : option Moment.t :=
  if falsy value then None else Some (toMoment value).

Definition minMaxDates (input : MinMax) : result :=
  let minDate := parseTimeUnit (min input) in
  let maxDate := parseTimeUnit (max input) in
  match minDate, maxDate with
  | Some mn, Some mx =>
      if Js.lt (Moment.diff mx mn) (Js.Num 0)
      then Throws mn mx
      else Returns (mkMinMaxDates minDate maxDate)
  | _, _ => Returns (mkMinMaxDates minDate maxDate)
  end.

End Construction.

(** [compare(time)], with [base = moment(time)]. *)
Definition compare (w : MinMaxDates) (base : Moment.t) : bool :=
  (match minDate w with
   | Some mn => Js.le (Moment.diff mn base) (Js.Num 0)
   | None => true
   end)
  &&
  (match maxDate w with
   | Some mx => Js.ge (Moment.diff mx base) (Js.Num 0)
   | None => true
   end).

(** A concrete reading of the input: a timestamp in milliseconds, or
    nothing; [0] and a missing bound are falsy. *)
Definition falsyMillis (r : option Z) : bool :=
  match r with
  | Some z => z =? 0
  | None => true
  end.

Definition momentOfMillis (r : option Z) : Moment.t :=
  match r with
  | Some z => Moment.Valid z
  | None => Moment.Invalid
  end.

End Window.

(** ** [dateRangeItemCounter]: the window statistics *)

Module Counter.

(** The five counters of the closure, as [stats()] returns them. *)
Record Stats : Type := mkStats {
  total : Z;
  outOfRange : Z;
  older : Z;
  newer : Z;
  empty : Z
}.

(** The counters when [dateRangeItemCounter(minMax)] returns. *)
Definition initial : Stats := mkStats 0 0 0 0 0.

Definition stats (s : Stats) : Stats := s.

(** [empty(predicate)] *)
Definition recordEmpty (predicate : bool) (s : Stats) : Stats :=
  if negb predicate
  then mkStats (total s) (outOfRange s) (older s) (newer s) (empty s + 1)
  else s.

(** [add(value)] *)
Definition add (value : Z) (s : Stats) : Stats :=
  mkStats (total s + value) (outOfRange s) (older s) (newer s) (empty s).

Definition incrOutOfRange (s : Stats) : Stats :=
  mkStats (total s) (outOfRange s + 1) (older s) (newer s) (empty s).

Definition incrOlder (s : Stats) : Stats :=
  mkStats (total s) (outOfRange s) (older s + 1) (newer s) (empty s).

Definition incrNewer (s : Stats) : Stats :=
  mkStats (total s) (outOfRange s) (older s) (newer s + 1) (empty s).

(** [minMax.maxDate?.diff(value) ?? 0], and the same for [minDate]. *)
Definition diffOrZero (bound : option Moment.t) (value : Moment.t) : Js.number :=
  Js.nullish (option_map (fun d => Moment.diff d value) bound) (Js.Num 0).

(** [time(value)]: the result and the counters afterwards. *)
Definition time (minMax : Window.MinMaxDates) (value : Moment.t) (s : Stats)
  : bool * Stats :=
  let s1 := if negb (Window.compare minMax value) then incrOutOfRange s else s in
  let s2 := if Js.gt (diffOrZero (Window.maxDate minMax) value) (Js.Num 0)
            then incrOlder s1 else s1 in
  let s3 := if Js.gt (diffOrZero (Window.minDate minMax) value) (Js.Num 0)
            then incrNewer s2 else s2 in
  (Window.compare minMax value, s3).

(** [isOver()] *)
Definition isOver (s : Stats) : bool :=
  ((0 <? outOfRange s)
   && (if Js.truthy (older s) && Js.truthy (total s)
       then Js.ratio_gt (older s) (total s) (7 # 10)
       else false))
  || (if Js.truthy (empty s) && Js.truthy (total s)
      then Js.ratio_gt (empty s) (total s) (2 # 10)
      else false).

(** The methods of the counter object, as calls. *)
Inductive call : Type :=
| CallStats
| CallEmpty (predicate : bool)
| CallAdd (value : Z)
| CallTime (value : Moment.t)
| CallIsOver.

Inductive answer : Type :=
| Undefined
| Boolean (b : bool)
| Snapshot (s : Stats).

Definition invoke (minMax : Window.MinMaxDates) (c : call) (s : Stats)
  : answer * Stats :=
  match c with
  | CallStats => (Snapshot (stats s), s)
  | CallEmpty predicate => (Undefined, recordEmpty predicate s)
  | CallAdd value => (Undefined, add value s)
  | CallTime value => let r := time minMax value s in (Boolean (fst r), snd r)
  | CallIsOver => (Boolean (isOver s), s)
  end.

(** A sequence of calls, oldest first: the answers and the final counters. *)
Fixpoint run (minMax : Window.MinMaxDates) (cs : list call) (s : Stats)
  : list answer * Stats :=
  match cs with
  | [] => ([], s)
  | c :: cs' =>
      let r := invoke minMax c s in
      let rest := run minMax cs' (snd r) in
      (fst r :: fst rest, snd rest)
  end.

(** The recording operations are the ones that write a counter. *)
Definition recording (c : call) : bool :=
  match c with
  | CallEmpty _ | CallAdd _ | CallTime _ => true
  | CallStats | CallIsOver => false
  end.

(** Counter states a run can reach from the initial one. *)
Inductive reachable (minMax : Window.MinMaxDates) : Stats -> Prop :=
| reachable_initial : reachable minMax initial
| reachable_invoke c s :
    reachable minMax s -> reachable minMax (snd (invoke minMax c s)).

(** No counter is below its earlier value. *)
Definition Stats_le (s s' : Stats) : Prop :=
  total s <= total s'
  /\ older s <= older s'
  /\ newer s <= newer s'
  /\ outOfRange s <= outOfRange s'
  /\ empty s <= empty s'.

(** An [add] with a negative argument is the one call that is left out. *)
Definition addsNothingNegative (c : call) : Prop :=
  match c with
  | CallAdd value => 0 <= value
  | _ => True
  end.

(** The stagnation condition, in the words of the specification. *)
Definition stagnant (s : Stats) : Prop :=
  (0 < outOfRange s /\ 0 < total s
   /\ (7 # 10 < inject_Z (older s) / inject_Z (total s))%Q)
  \/ (0 < total s
      /\ (2 # 10 < inject_Z (empty s) / inject_Z (total s))%Q).

(** By how much a call of [time] moves a counter. *)
Definition step (b : bool) : Z := if b then 1 else 0.

End Counter.

(** ** [deferred]: a promise settled from the outside *)

Module Deferred.

Section Deferred.

(** [T]: the values, [E]: the errors, [P]: the thenables a promise
    can be resolved with. *)
Context {T E P : Type}.

(** What [resolve] is called with: [T | PromiseLike<T>]. *)
Inductive resolution : Type :=
| Plain (value : T)
| Thenable (p : P).

(** The fate of the promise of the closure. Resolved with a
    thenable, it follows that thenable and nothing else. *)
Inductive fate : Type :=
| Pending
| Fulfilled (value : T)
| Rejected (error : E)
| Following (p : P).

(** The two functions the [Promise] executor receives; both do
    nothing once the fate of the promise is decided. *)
Definition r1 (arg : resolution) (f : fate) : fate :=
  match f with
  | Pending =>
      match arg with
      | Plain v => Fulfilled v
      | Thenable p => Following p
      end
  | _ => f
  end.

Definition r2 (arg : E) (f : fate) : fate :=
  match f with
  | Pending => Rejected arg
  | _ => f
  end.

(** The closure: the promise and the [resolved] flag. *)
Record state : Type := mkState {
  promise : fate;
  resolved : bool
}.

(** [deferred()] *)
Definition deferred : state := mkState Pending false.

Definition resolve (arg : resolution) (d : state) : state :=
  mkState (r1 arg (promise d)) true.

Definition reject (arg : E) (d : state) : state :=
  mkState (r2 arg (promise d)) true.

Inductive call : Type :=
| Resolve (arg : resolution)
| Reject (arg : E).

Definition invoke (c : call) (d : state) : state :=
  match c with
  | Resolve arg => resolve arg d
  | Reject arg => reject arg d
  end.

(** The calls of a list, oldest first. *)
Definition run (cs : list call) (d : state) : state :=
  fold_left (fun d c => invoke c d) cs d.

End Deferred.

Arguments resolution : clear implicits.
Arguments fate : clear implicits.
Arguments state : clear implicits.
Arguments call : clear implicits.

End Deferred.

(** ** [scrollUntil]: the collector loop *)

Module Scroll.

(** What a probe of the page returns for a number. *)
Inductive value : Type :=
| JsUndefined
| JsNull
| JsNum (n : Z).

(** [if (num)]: zero, like [null] and [undefined], is falsy. *)
Definition truthy (v : value) : bool :=
  match v with
  | JsNum n => negb (n =? 0)
  | _ => false
  end.

(** [isChanging(histogram, num)] *)
Definition isChanging (histogram : gset Z) (num : value) : bool :=
  match num with
  | JsUndefined | JsNull => false
  | JsNum n => forallb (fun val => negb (n =? val)) (elements histogram)
  end.

(** [if (num) { histogram.add(num) }] *)
Definition addIfTruthy (histogram : gset Z) (num : value) : gset Z :=
  match num with
  | JsNum n => if truthy num then {[ n ]} ∪ histogram else histogram
  | _ => histogram
  end.

(** The argument of [maybeStop]. *)
Record Params : Type := mkParams {
  count : nat;
  scrollChanged : bool;
  bodyChanged : bool;
  scrollSize : nat;
  heightSize : nat
}.

(** The variables of the closure. *)
Record Vars : Type := mkVars {
  scrolls : gset Z;
  heights : gset Z;
  counter : nat
}.

(** What the loop does to the page and to its callbacks, in order. *)
Inductive event : Type :=
| Slept (millis : Z)
| AskedDoScroll (answer : bool)
| ScrolledBy
| ReadScrollY (v : value)
| ReadBodyHeight (v : value)
| ScrollData (scrollChanged bodyChanged : bool)
| QueriedSelectors (found : bool)
| AskedMaybeStop (param : Params) (answer : bool).

(** The stop condition is consulted by the last two. *)
Definition consultsStop (e : event) : bool :=
  match e with
  | QueriedSelectors _ | AskedMaybeStop _ _ => true
  | _ => false
  end.

Section ScrollUntil.

(** The page and whatever the callbacks close over. *)
Context {World : Type}.

(** The probes [page.evaluate] runs. *)
Record Page : Type := mkPage {
  scrollBy : World -> World;
  scrollY : World -> value * World;
  scrollHeight : World -> value * World;
  anyVisible : list string -> World -> bool * World
}.

Record ScrollUntilOptions : Type := mkOptions {
  selectors : list string;
  maybeStop : option (Params -> World -> bool * World);
  sleepMillis : Z;
  doScroll : World -> bool * World
}.

(** Computations of the loop: they read and write the world and the
    variables of the closure, and emit events. *)
Definition M (A : Type) : Type := World * Vars -> A * (World * Vars) * list event.

Definition ret {A} (a : A) : M A := fun s => (a, s, []).

Definition bind {A B} (m : M A) (k : A -> M B) : M B :=
  fun s =>
    let '(a, s1, t1) := m s in
    let '(b, s2, t2) := k a s1 in
    (b, s2, t1 ++ t2).

Definition emit (e : event) : M unit := fun s => (tt, s, [e]).

Definition getVars : M Vars := fun s => (snd s, s, []).

Definition putVars (v : Vars) : M unit := fun s => (tt, (fst s, v), []).

(** A call into the world. *)
Definition perform {A} (f : World -> A * World) : M A :=
  fun s => let '(a, w) := f (fst s) in (a, (w, snd s), []).

Notation "x <- m ;; k" := (bind m (fun x => k))
  (at level 100, m at next level, right associativity).
Notation "m ;;; k" := (bind m (fun _ => k))
  (at level 100, right associativity).

(** [Apify.utils.sleep]: the world moves on while the loop waits. *)
Variable elapse : Z -> World -> World.
Variable page : Page.
Variable options : ScrollUntilOptions.

Definition sleep (millis : Z) : M unit :=
  perform (fun w => (tt, elapse millis w)) ;;;
  emit (Slept millis).

(** [shouldContinue({ scrollChanged, bodyChanged })] *)
Definition shouldContinue (scrollChanged bodyChanged : bool) : M bool :=
  foundSelectors <-
    match selectors options with
    | [] => ret false
    | _ :: _ =>
        found <- perform (anyVisible page (selectors options)) ;;
        emit (QueriedSelectors found) ;;;
        ret found
    end ;;
  if foundSelectors then ret false
  else
    match maybeStop options with
    | Some callback =>
        v <- getVars ;;
        let param := mkParams (counter v) scrollChanged bodyChanged
                       (size (scrolls v)) (size (heights v)) in
        stop <- perform (callback param) ;;
        emit (AskedMaybeStop param stop) ;;;
        ret (negb stop)
    | None => ret true
    end.

(** One pass through the body of [while (true)]; the result tells
    whether the pass ended in [break]. *)
Definition pass : M bool :=
  sleep (sleepMillis options) ;;;
  go <- perform (doScroll options) ;;
  emit (AskedDoScroll go) ;;;
  if go then
    sleep (sleepMillis options) ;;;
    perform (fun w => (tt, scrollBy page w)) ;;;
    emit ScrolledBy ;;;
    sleep (sleepMillis options) ;;;
    lastScroll <- perform (scrollY page) ;;
    emit (ReadScrollY lastScroll) ;;;
    v <- getVars ;;
    let scrollChanged := isChanging (scrolls v) lastScroll in
    putVars (mkVars (addIfTruthy (scrolls v) lastScroll) (heights v) (counter v)) ;;;
    bodyHeight <- perform (scrollHeight page) ;;
    emit (ReadBodyHeight bodyHeight) ;;;
    v <- getVars ;;
    let bodyChanged := isChanging (heights v) bodyHeight in
    putVars (mkVars (scrolls v) (addIfTruthy (heights v) bodyHeight) (counter v)) ;;;
    emit (ScrollData scrollChanged bodyChanged) ;;;
    sleep (sleepMillis options) ;;;
    continue <- shouldContinue scrollChanged bodyChanged ;;
    if negb continue then ret true
    else
      v <- getVars ;;
      putVars (mkVars (scrolls v) (heights v) (S (counter v))) ;;;
      ret false
  else ret false.

(** Whether the loop has left [while (true)] or is still in it. *)
Inductive outcome : Type :=
| Stopped
| Scrolling.

(** At most [passes] passes of the loop. *)
Fixpoint loop (passes : nat) : M outcome :=
  match passes with
  | O => ret Scrolling
  | S n =>
      stop <- pass ;;
      if stop then ret Stopped else loop n
  end.

(** [scrollUntil(page, options)], with the fresh variables of the
    closure. *)
Definition scrollUntil (passes : nat) (w : World)
  : outcome * (World * Vars) * list event :=
  loop passes (w, mkVars ∅ ∅ 0%nat).

End ScrollUntil.

Arguments Page : clear implicits.
Arguments ScrollUntilOptions : clear implicits.
Arguments M : clear implicits.

(** How one sample is treated, as the loop does it: [before] and
    [after] are the histogram around the sample, [changed] is the
    classification. Zero is never in a histogram of the loop. *)
Definition sampled (sample : value) (before : gset Z) (changed : bool)
    (after : gset Z) : Prop :=
  match sample with
  | JsUndefined | JsNull => changed = false /\ after = before
  | JsNum n =>
      if n =? 0
      then changed = true /\ after = before
      else (changed = true <-> n ∉ before) /\ after = {[ n ]} ∪ before
  end.

(** The same with a zero sample treated like [null]: not inserted and
    not classified as changed. *)
Definition sampledZeroAsNull (sample : value) (before : gset Z) (changed : bool)
    (after : gset Z) : Prop :=
  match sample with
  | JsUndefined | JsNull => changed = false /\ after = before
  | JsNum n =>
      if n =? 0
      then changed = false /\ after = before
      else (changed = true <-> n ∉ before) /\ after = {[ n ]} ∪ before
  end.

(** Neither histogram holds zero. *)
Definition zeroFree (v : Vars) : Prop :=
  (0 ∉ scrolls v) /\ (0 ∉ heights v).

(** What a pass that scrolls emits before it consults the stop
    condition. *)
Definition scrollEvents (millis : Z) (lastScroll bodyHeight : value)
    (scrollChanged bodyChanged : bool) : list event :=
  [Slept millis; AskedDoScroll true; Slept millis; ScrolledBy;
   Slept millis; ReadScrollY lastScroll; ReadBodyHeight bodyHeight;
   ScrollData scrollChanged bodyChanged; Slept millis].

(** What a pass that does not scroll emits. *)
Definition idleEvents (millis : Z) : list event :=
  [Slept millis; AskedDoScroll false].

(** A page that stays at the top and has no height yet, scrolled with
    the default options. *)
Definition stillPage : Page unit :=
  mkPage (fun w => w) (fun w => (JsNum 0, w)) (fun w => (JsNum 0, w))
         (fun _ w => (false, w)).

Definition defaultOptions : ScrollUntilOptions unit :=
  mkOptions [] None 1000 (fun w => (true, w)).

(** A page that grows by 600 pixels with every scroll; the world is
    the number of scrolls so far. The caller stops after two counted
    iterations, and looks for a footer. *)
Definition growingPage : Page nat :=
  mkPage S
         (fun w => (JsNum (600 * Z.of_nat w), w))
         (fun w => (JsNum (2000 + 600 * Z.of_nat w), w))
         (fun _ w => (false, w)).

Definition stopAfterTwo : ScrollUntilOptions nat :=
  mkOptions ["footer"%string]
            (Some (fun param w => (Nat.leb 2 (count param), w)))
            1000 (fun w => (true, w)).

(** The same caller, with a [doScroll] that always says no. *)
Definition neverScroll : ScrollUntilOptions nat :=
  mkOptions ["footer"%string]
            (Some (fun param w => (Nat.leb 2 (count param), w)))
            1000 (fun w => (false, w)).

End Scroll.

(** ** The callers of [scrollUntil] *)

Module Callers.

Import Scroll.

(** An answer that ends the loop: a stop marker is visible, or
    [maybeStop] returned true. *)
Definition stopAnswer (e : event) : bool :=
  match e with
  | QueriedSelectors found => found
  | AskedMaybeStop _ answer => answer
  | _ => false
  end.

(** Against these histograms, neither of the two samples counts as
    changed. *)
Definition stale (position height : value) (v : Vars) : Prop :=
  isChanging (scrolls v) position = false
  /\ isChanging (heights v) height = false.

Section Callers.

Context {World : Type}.

(** [doScroll = () => true]: the default, which no caller overrides. *)
Definition alwaysScroll (w : World) : bool * World := (true, w).

(** The selector constants of [constants.ts]. *)
Variable SEE_MORE : string.
Variable PAGE_TRANSPARENCY : string.

(** [getFieldInfos]: [maybeStop: async ({ count }) => count > 5]. *)
Definition fieldInfosMaybeStop (param : Params) (w : World) : bool * World :=
  (Nat.ltb 5 (count param), w).

Definition fieldInfosOptions : ScrollUntilOptions World :=
  mkOptions [SEE_MORE; PAGE_TRANSPARENCY; "article"%string]
            (Some fieldInfosMaybeStop) 300 alwaysScroll.

(** [getPostUrls]: the callback awaits [getPosts()] and returns
    [urls.size >= max || counter.isOver()
     || (count > 20 && !bodyChanged && !scrollChanged)]. *)
Variable getPosts : World -> World.
Variable urlsFull : World -> bool.
Variable counterIsOver : World -> bool.

Definition postUrlsMaybeStop (param : Params) (w : World) : bool * World :=
  let w1 := getPosts w in
  (urlsFull w1 || counterIsOver w1
   || (Nat.ltb 20 (count param) && negb (bodyChanged param)
       && negb (scrollChanged param)),
   w1).

Definition postUrlsOptions : ScrollUntilOptions World :=
  mkOptions [] (Some postUrlsMaybeStop) 1000 alwaysScroll.

(** [getReviews]: the callback awaits [getReviewsFromPage()] and returns
    [reviews.size >= max || (count > 2 && !scrollChanged && !bodyChanged)]. *)
Variable getReviewsFromPage : World -> World.
Variable reviewsFull : World -> bool.

Definition reviewsMaybeStop (param : Params) (w : World) : bool * World :=
  let w1 := getReviewsFromPage w in
  (reviewsFull w1
   || (Nat.ltb 2 (count param) && negb (scrollChanged param)
       && negb (bodyChanged param)),
   w1).

Definition reviewsOptions : ScrollUntilOptions World :=
  mkOptions [] (Some reviewsMaybeStop) 500 alwaysScroll.

End Callers.

(** A page that has stopped loading: it sits at 4000 of 5000 pixels. *)
Definition stalledPage : Page unit :=
  mkPage (fun w => w) (fun w => (JsNum 4000, w)) (fun w => (JsNum 5000, w))
         (fun _ w => (false, w)).

End Callers.

(** ** The callers of [dateRangeItemCounter] *)

Module Bookkeeping.

Import Counter.

(** [getPosts] starts a round with
    [counter.empty(!posts.length); counter.add(posts.length);]. *)
Definition recordBatch (length : Z) : list call :=
  [CallEmpty (length =? 0); CallAdd length].

(** It then goes through the posts: it asks [counter.isOver()] and, for
    a post that is not pinned, calls [counter.time] with its date. A
    round is the number of posts found and the dates that were
    classified. *)
Definition roundCalls (round : Z * list Moment.t) : list call :=
  recordBatch (fst round)
  ++ flat_map (fun t => [CallIsOver; CallTime t]) (snd round).

(** The rounds in which posts were found. *)
Definition nonEmptyRounds (rounds : list (Z * list Moment.t)) : Z :=
  Z.of_nat (length (List.filter (fun round => negb (fst round =? 0)) rounds)).

(** The posts found in all rounds. *)
Definition postsFound (rounds : list (Z * list Moment.t)) : Z :=
  fold_right Z.add 0 (map fst rounds).

(** [getPostComments] never calls [counter.empty]. *)
Definition recordsNoEmpty (c : call) : bool :=
  match c with
  | CallEmpty _ => false
  | _ => true
  end.

End Bookkeeping.

(** ** [convertDate]: date types to milliseconds *)

Module ConvertDate.

(** The numbers involved: whole numbers, [NaN] and [Infinity]. *)
Inductive number : Type :=
| Finite (z : Z)
| NotANumber
| PlusInfinity.

(** The largest time value a [Date] holds. *)
Definition maxTime : Z := 8640000000000000.

(** The time value of [new Date(n)]: nothing for an invalid date. *)
Definition timeClip (n : number) : option Z :=
  match n with
  | Finite z => if Z.abs z <=? maxTime then Some z else None
  | _ => None
  end.

(** [d.getTime()] *)
Definition getTime (d : option Z) : number :=
  match d with
  | Some t => Finite t
  | None => NotANumber
  end.

(** [n * 1000] *)
Definition times1000 (n : number) : number :=
  match n with
  | Finite z => Finite (z * 1000)
  | other => other
  end.

(** The decimal digits of a natural number, counted by division. *)
Fixpoint digits (fuel : nat) (n : Z) : nat :=
  match fuel with
  | O => 1%nat
  | S fuel' => if n <? 10 then 1%nat else S (digits fuel' (n / 10))
  end.

(** The length of [`${z}`] for a whole number (below 1e21, where the
    exponent notation starts): the digits, and the sign. *)
Definition decimalLength (z : Z) : nat :=
  if z <? 0
  then S (digits (S (Z.to_nat (Z.log2 (- z)))) (- z))
  else digits (S (Z.to_nat (Z.log2 z))) z.

(** What [convertDate] is given: nothing ([null], [undefined]), a whole
    number, a string, or a [Date] with its time value. *)
Inductive input : Type :=
| Absent
| Number (z : Z)
| Text (s : string)
| DateObject (time : option Z).

(** [!value] *)
Definition falsy (value : input) : bool :=
  match value with
  | Absent => true
  | Number z => z =? 0
  | Text s => Nat.eqb (String.length s) 0
  | DateObject _ => false
  end.

Section ConvertDate.

(** The two conversions of a string: [Date.parse] and unary plus. *)
Variable parse : string -> option Z.
Variable toNumber : string -> number.

(** [convertDate(value)], the overload that returns a number. *)
Definition convertDate (value : input) : number :=
  if falsy value then PlusInfinity
  else
    match value with
    | DateObject time => getTime time
    | _ =>
        let tryConvert :=
          match value with
          | Number z => timeClip (Finite z)
          | Text s => parse s
          | _ => None
          end in
        let tooShort :=
          match tryConvert with
          | None => true
          | Some t => Nat.ltb (decimalLength t) 13
          end in
        let tryConvert :=
          if tooShort
          then match value with
               | Text s =>
                   timeClip (if Nat.leb 13 (String.length s)
                             then toNumber s else times1000 (toNumber s))
               | Number z =>
                   timeClip (Finite (if Nat.leb 13 (decimalLength z)
                                     then z else z * 1000))
               | _ => tryConvert
               end
          else tryConvert in
        getTime tryConvert
    end.

End ConvertDate.

(** [moment(n)] for a number. *)
Definition moment (n : number) : Moment.t :=
  match timeClip n with
  | Some t => Moment.Valid t
  | None => Moment.Invalid
  end.

(** [+utime * 1000], the [publishedTime] of a post. *)
Definition publishedTime (utime : Z) : input := Number (utime * 1000).

End ConvertDate.

(** ** [uniqueNonEmptyArray] and [evaluateFilterMap] *)

Module Arrays.

Section UniqueNonEmpty.

Context {A : Type} `{EqDecision A}.

(** [s => s]: whether an element is truthy. *)
Variable truthy : A -> bool.

(** [set.add(x)]: a [Set] keeps its elements in insertion order and
    ignores one it already has. *)
Definition setAdd (elements : list A) (x : A) : list A :=
  if decide (x ∈ elements) then elements else elements ++ [x].

(** [[...new Set(value)]] *)
Definition spreadSet (value : list A) : list A :=
  fold_left setAdd value [].

(** [uniqueNonEmptyArray(value)] *)
Definition uniqueNonEmptyArray (value : list A) : list A :=
  List.filter truthy (spreadSet value).

End UniqueNonEmpty.

Section EvaluateFilterMap.

(** [E]: the element handles, [R]: the values [map] returns, [World]:
    the page. *)
Context {E R World : Type}.

(** What [el.evaluate(map)] comes to: it throws, or it returns
    [undefined], [null] or a value. *)
Inductive evaluated : Type :=
| Threw (message : string)
| ReturnedUndefined
| ReturnedNull
| Returned (result : R).

Variable evaluate : E -> World -> evaluated * World.

(** [evaluateFilterMap(els, map)]: the values, and the page afterwards. *)
Fixpoint evaluateFilterMap (els : list E) (w : World) : list R * World :=
  match els with
  | [] => ([], w)
  | el :: rest =>
      let (outcome, w1) := evaluate el w in
      let (values, w2) := evaluateFilterMap rest w1 in
      match outcome with
      | Returned result => (result :: values, w2)
      | _ => (values, w2)
      end
  end.

(** What the elements come to, one after the other, each on the page
    the ones before it left. *)
Fixpoint outcomes (els : list E) (w : World) : list evaluated :=
  match els with
  | [] => []
  | el :: rest => fst (evaluate el w) :: outcomes rest (snd (evaluate el w))
  end.

(** The value of an outcome that is kept. *)
Definition kept (outcome : evaluated) : option R :=
  match outcome with
  | Returned result => Some result
  | _ => None
  end.

End EvaluateFilterMap.

Arguments evaluated : clear implicits.

End Arrays.

(** ** [createPageSelector] *)

Module PageSelector.

Section CreatePageSelector.

(** [World]: the page, [E]: element handles, [R]: what [map] returns,
    [Err]: errors other than the one thrown here. *)
Context {World E R Err : Type}.

(** How [page.waitForSelector] ends. *)
Inductive waited : Type :=
| Appeared
| TimeoutError
| OtherError (e : Err).

(** How the selector function ends when it does not return. *)
Inductive failure : Type :=
| SelectorNotFound (namespace selector : string)
| Rethrown (e : Err)
| MapThrew (e : Err).

Record Page : Type := mkPage {
  query : string -> World -> bool * World;
  waitForSelector : string -> Z -> World -> waited * World;
  queryAll : string -> World -> list E * World
}.

Variable selector : string.
Variable namespace : string.
Variable map : list E -> World -> (Err + R) * World.

(** The function [createPageSelector(selector, namespace, map)]
    returns, applied to [page] and [wait]. *)
Definition pageSelector (page : Page) (wait : Z) (w : World)
  : (failure + R) * World :=
  let callMap (w : World) :=
    let (els, w1) := queryAll page selector w in
    let (result, w2) := map els w1 in
    (match result with
     | inl e => inl (MapThrew e)
     | inr r => inr r
     end, w2) in
  let (found, w1) := query page selector w in
  if negb found
  then
    if 0 <? wait
    then
      let (outcome, w2) := waitForSelector page selector wait w1 in
      match outcome with
      | OtherError e => (inl (Rethrown e), w2)
      | _ => (inl (SelectorNotFound namespace selector), w2)
      end
    else callMap w1
  else callMap w1.

End CreatePageSelector.

Arguments waited : clear implicits.
Arguments failure : clear implicits.
Arguments Page : clear implicits.

End PageSelector.

(** ** [proxyConfiguration] *)

Module Proxy.

(** What the check reads of an [Apify.ProxyConfiguration]. *)
Record ProxyConfiguration : Type := mkProxyConfiguration {
  usesApifyProxy : bool;
  proxyUrls : option (list string);
  groups : option (list string);
  newUrl : string
}.

Inductive failure : Type :=
| ProxyRequired
| GroupsNotAllowed (blacklist : list string).

(** [list.includes(x)] *)
Definition includes (l : list string) (x : string) : bool :=
  existsb (String.eqb x) l.

(** [configuration.groups?.includes(group)], as a condition. *)
Definition inGroups (configuration : ProxyConfiguration) (group : string) : bool :=
  match groups configuration with
  | Some gs => includes gs group
  | None => false
  end.

(** [!configuration.proxyUrls?.length] *)
Definition noProxyUrls (configuration : ProxyConfiguration) : bool :=
  match proxyUrls configuration with
  | Some (_ :: _) => false
  | _ => true
  end.

(** [!s] for a string. *)
Definition emptyString (s : string) : bool := Nat.eqb (String.length s) 0.

(** [proxyConfiguration({ proxyConfig, required, force, blacklist, hint })],
    from the configuration [Apify.createProxyConfiguration] gave: the
    result, and whether the hint was logged. *)
Definition proxyConfiguration (configuration : option ProxyConfiguration)
    (required force : bool) (blacklist hint : list string)
  : (failure + option ProxyConfiguration) * bool :=
  let unusable :=
    match configuration with
    | None => true
    | Some c => (negb (usesApifyProxy c) && noProxyUrls c) || emptyString (newUrl c)
    end in
  if required && unusable then (inl ProxyRequired, false)
  else
    match configuration with
    | Some c =>
        if force && usesApifyProxy c
        then
          if existsb (inGroups c) blacklist
          then (inl (GroupsNotAllowed blacklist), false)
          else (inr configuration,
                match hint with
                | [] => false
                | _ :: _ => negb (existsb (inGroups c) hint)
                end)
        else (inr configuration, false)
    | None => (inr configuration, false)
    end.

End Proxy.

(** ** [resourceCache] *)

Module ResourceCache.

(** [req.resourceType()], as far as the handlers tell them apart. *)
Inductive resourceType : Type :=
| Image
| Script
| Stylesheet
| OtherResource.

(** [hay.includes(needle)] *)
Fixpoint includes (needle hay : string) : bool :=
  if String.prefix needle hay then true
  else match hay with
       | EmptyString => false
       | String _ rest => includes needle rest
       end.

(** An entry of the cache; a body is a string of bytes. *)
Record cached : Type := mkCached {
  loaded : bool;
  contentType : option string;
  content : option string;
  headers : option (gmap string string)
}.

(** [{ loaded: false }] *)
Definition notLoaded : cached := mkCached false None None None.

Inductive placeholder : Type :=
| Jpg
| Png
| Gif.

(** What the request handler does with a request. *)
Inductive answer : Type :=
| RespondImage (image : placeholder)
| RespondCached (body : option string) (type : option string)
                (hs : option (gmap string string))
| Continue.

Definition isScriptOrStylesheet (type : resourceType) : bool :=
  match type with
  | Script | Stylesheet => true
  | _ => false
  end.

Section Handlers.

(** [paths.some((path) => path.test(url))] *)
Variable cacheable : string -> bool.

(** [page.on('request', ...)] *)
Definition onRequest (url : string) (type : resourceType)
    (cache : gmap string cached) : answer * gmap string cached :=
  match type with
  | Image =>
      if includes ".jpg" url || includes ".jpeg" url then (RespondImage Jpg, cache)
      else if includes ".png" url then (RespondImage Png, cache)
      else if includes ".gif" url then (RespondImage Gif, cache)
      else (Continue, cache)
  | _ =>
      if isScriptOrStylesheet type && cacheable url
      then match cache !! url with
           | Some entry =>
               if loaded entry
               then (RespondCached (content entry) (contentType entry)
                       (headers entry), cache)
               else (Continue, <[url := notLoaded]> cache)
           | None => (Continue, <[url := notLoaded]> cache)
           end
      else (Continue, cache)
  end.

(** A response: the url, the type of its request, the headers and the
    body that [res.buffer()] will give. *)
Record response : Type := mkResponse {
  resUrl : string;
  resType : resourceType;
  resHeaders : gmap string string;
  resBuffer : string
}.

(** [page.on('response', ...)], up to [await res.buffer()]: whether
    the body is going to be stored. *)
Definition onResponse (res : response) (cache : gmap string cached) : bool :=
  isScriptOrStylesheet (resType res)
  && match cache !! resUrl res with
     | Some entry => negb (loaded entry)
     | None => false
     end.

(** The headers without [date], [expires], [last-modified] and
    [content-length]. *)
Definition keptHeaders (hs : gmap string string) : gmap string string :=
  delete "content-length"%string
    (delete "last-modified"%string
       (delete "expires"%string (delete "date"%string hs))).

(** The rest of the response handler, once the body is there. *)
Definition store (res : response) (cache : gmap string cached)
  : gmap string cached :=
  <[resUrl res :=
      mkCached (Nat.ltb 0 (String.length (resBuffer res)))
               (resHeaders res !! "content-type"%string)
               (Some (resBuffer res))
               (Some (keptHeaders (resHeaders res)))]> cache.

(** The cache, and the responses whose body is awaited. *)
Record state : Type := mkState {
  cache : gmap string cached;
  pending : list response
}.

Definition initial : state := mkState ∅ [].

(** What happens on the page: a request, a response, and the body of
    the [i]-th awaited response arriving. *)
Inductive event : Type :=
| Requested (url : string) (type : resourceType)
| Responded (res : response)
| Buffered (i : nat).

Definition step (e : event) (s : state) : option (string * answer) * state :=
  match e with
  | Requested url type =>
      let r := onRequest url type (cache s) in
      (Some (url, fst r), mkState (snd r) (pending s))
  | Responded res =>
      (None,
       if onResponse res (cache s)
       then mkState (cache s) (pending s ++ [res])
       else s)
  | Buffered i =>
      (None,
       match pending s !! i with
       | Some res => mkState (store res (cache s)) (delete i (pending s))
       | None => s
       end)
  end.

(** The answers to the requests among [events], and the state after. *)
Fixpoint run (events : list event) (s : state)
  : list (string * answer) * state :=
  match events with
  | [] => ([], s)
  | e :: rest =>
      let r := step e s in
      let r' := run rest (snd r) in
      (match fst r with
       | Some a => a :: fst r'
       | None => fst r'
       end, snd r')
  end.

(** What a loaded entry for [url] owes to a response [res]. *)
Definition storedFrom (url : string) (entry : cached) (res : response) : Prop :=
  resUrl res = url
  /\ content entry = Some (resBuffer res)
  /\ resBuffer res <> ""%string
  /\ contentType entry = resHeaders res !! "content-type"%string
  /\ headers entry = Some (keptHeaders (resHeaders res)).

(** Every loaded entry comes from a response that was seen, and so does
    every awaited body. *)
Definition sound (seen : list response) (s : state) : Prop :=
  (forall url entry,
      cache s !! url = Some entry -> loaded entry = true ->
      exists res, In res seen /\ storedFrom url entry res)
  /\ (forall res, In res (pending s) -> In res seen).

End Handlers.

End ResourceCache.

(** ** [statePersistor]: the state and its snapshot *)

Module Persist.

Section Persist.

Context {K V : Type} `{EqDecision K}.

(** A [Map], as its entries in insertion order. [map.set(key, value)]
    replaces the value of a key the map has, in place, and appends a
    new key. *)
Fixpoint mapSet (key : K) (value : V) (entries : list (K * V)) : list (K * V) :=
  match entries with
  | [] => [(key, value)]
  | (k, v) :: rest =>
      if decide (k = key) then (k, value) :: rest
      else (k, v) :: mapSet key value rest
  end.

(** [map.get(key)] *)
Fixpoint mapGet (key : K) (entries : list (K * V)) : option V :=
  match entries with
  | [] => None
  | (k, v) :: rest => if decide (k = key) then Some v else mapGet key rest
  end.

(** [new Map(await kv.getValue('STATE'))]: the store gives [null] when
    nothing was saved. *)
Definition newMap (stored : option (list (K * V))) : list (K * V) :=
  match stored with
  | None => []
  | Some pairs => fold_left (fun m kv => mapSet (fst kv) (snd kv) m) pairs []
  end.

(** [[...state]], what [persistState] saves. *)
Definition snapshot (state : list (K * V)) : list (K * V) := state.

End Persist.

End Persist.

(** ** [getReviews]: one reading of the reviews on the page *)

Module Reviews.

Section Reviews.

Context {Review : Type}.

(** [review.url]: a string or [null]. *)
Variable url : Review -> option string.

(** [review.url && !reviews.has(review.url)] *)
Definition isNew (review : Review) (reviews : gmap string Review) : option string :=
  match url review with
  | Some u =>
      if Nat.eqb (String.length u) 0 then None
      else match reviews !! u with
           | Some _ => None
           | None => Some u
           end
  | None => None
  end.

(** The loop of [getReviewsFromPage] over the reviews found on the
    page: the map afterwards, and whether [finish.resolve()] was
    called. *)
Fixpoint getReviewsFromPage (max : nat) (found : list Review)
    (reviews : gmap string Review) : gmap string Review * bool :=
  match found with
  | [] => (reviews, false)
  | review :: rest =>
      let reviews1 :=
        match isNew review reviews with
        | Some u => <[u := review]> reviews
        | None => reviews
        end in
      if Nat.leb max (size reviews1) then (reviews1, true)
      else getReviewsFromPage max rest reviews1
  end.

End Reviews.

End Reviews.

(** ** Concrete pages and inputs *)

Module Samples.

(** A bound as the input gives it: nothing, a time in milliseconds, or
    a string that moment cannot parse. *)
Inductive rawBound : Type :=
| NoBound
| Millis (z : Z)
| Unparsable.

(** [!value]: a non-empty string is truthy, whatever it says. *)
Definition falsyBound (r : rawBound) : bool :=
  match r with
  | NoBound => true
  | Millis z => z =? 0
  | Unparsable => false
  end.

Definition momentOfBound (r : rawBound) : Moment.t :=
  match r with
  | Millis z => Moment.Valid z
  | _ => Moment.Invalid
  end.

(** A page on which the selector is not there at first and appears
    while the function waits. *)
Definition latePage : PageSelector.Page unit nat string :=
  PageSelector.mkPage
    (fun _ w => (false, w))
    (fun _ _ w => (PageSelector.Appeared, w))
    (fun _ w => ([1%nat; 2%nat], w)).

(** A page whose wait fails for another reason than the timeout. *)
Definition brokenPage : PageSelector.Page unit nat string :=
  PageSelector.mkPage
    (fun _ w => (false, w))
    (fun _ _ w => (PageSelector.OtherError "Target closed"%string, w))
    (fun _ w => ([], w)).

(** [map]: the number of elements found. *)
Definition countElements (els : list nat) (w : unit)
  : (string + nat) * unit :=
  (inr (length els), w).

(** A configuration that uses the Apify proxy with one group. *)
Definition residential : Proxy.ProxyConfiguration :=
  Proxy.mkProxyConfiguration true None (Some ["RESIDENTIAL"%string])
    "http://proxy.apify.com:8000"%string.

(** The response to a script. *)
Definition scriptResponse : ResourceCache.response :=
  ResourceCache.mkResponse "https://static.example/app.js"%string
    ResourceCache.Script ∅ "console.log(1)"%string.

End Samples.

(** ** [scrollUntil] with calls that throw *)

(** [scrollUntil] has no [try]: when [doScroll], a [page.evaluate] or
    [maybeStop] throws, the promise it returned is rejected with that
    error. Here every call either throws or returns, and the loop has a
    third way to end. The variables, the events and the treatment of
    the samples are those of [Scroll]. *)
Module Rejecting.

Section Rejecting.

Context {World Err : Type}.

Record Page : Type := mkPage {
  scrollBy : World -> option Err * World;
  scrollY : World -> (Err + Scroll.value) * World;
  scrollHeight : World -> (Err + Scroll.value) * World;
  anyVisible : list string -> World -> (Err + bool) * World
}.

Record ScrollUntilOptions : Type := mkOptions {
  selectors : list string;
  maybeStop : option (Scroll.Params -> World -> (Err + bool) * World);
  sleepMillis : Z;
  doScroll : World -> (Err + bool) * World
}.

(** Computations of the loop: as in [Scroll], but one that throws
    gives the error instead of a result, and what follows it is not
    run. *)
Definition M (A : Type) : Type :=
  World * Scroll.Vars -> (Err + A) * (World * Scroll.Vars) * list Scroll.event.

Definition ret {A} (a : A) : M A := fun s => (inr a, s, []).

Definition bind {A B} (m : M A) (k : A -> M B) : M B :=
  fun s =>
    let '(r, s1, t1) := m s in
    match r with
    | inl e => (inl e, s1, t1)
    | inr a => let '(b, s2, t2) := k a s1 in (b, s2, t1 ++ t2)
    end.

Definition emit (e : Scroll.event) : M unit := fun s => (inr tt, s, [e]).

Definition getVars : M Scroll.Vars := fun s => (inr (snd s), s, []).

Definition putVars (v : Scroll.Vars) : M unit := fun s => (inr tt, (fst s, v), []).

Definition perform {A} (f : World -> (Err + A) * World) : M A :=
  fun s => let '(r, w) := f (fst s) in (r, (w, snd s), []).

Notation "x <- m ;; k" := (bind m (fun x => k))
  (at level 100, m at next level, right associativity).
Notation "m ;;; k" := (bind m (fun _ => k))
  (at level 100, right associativity).

Variable elapse : Z -> World -> World.
Variable page : Page.
Variable options : ScrollUntilOptions.

Definition sleep (millis : Z) : M unit :=
  perform (fun w => (inr tt, elapse millis w)) ;;;
  emit (Scroll.Slept millis).

(** [shouldContinue({ scrollChanged, bodyChanged })] *)
Definition shouldContinue (scrollChanged bodyChanged : bool) : M bool :=
  foundSelectors <-
    match selectors options with
    | [] => ret false
    | _ :: _ =>
        found <- perform (anyVisible page (selectors options)) ;;
        emit (Scroll.QueriedSelectors found) ;;;
        ret found
    end ;;
  if foundSelectors then ret false
  else
    match maybeStop options with
    | Some callback =>
        v <- getVars ;;
        let param := Scroll.mkParams (Scroll.counter v) scrollChanged bodyChanged
                       (size (Scroll.scrolls v)) (size (Scroll.heights v)) in
        stop <- perform (callback param) ;;
        emit (Scroll.AskedMaybeStop param stop) ;;;
        ret (negb stop)
    | None => ret true
    end.

(** One pass through the body of [while (true)]. *)
Definition pass : M bool :=
  sleep (sleepMillis options) ;;;
  go <- perform (doScroll options) ;;
  emit (Scroll.AskedDoScroll go) ;;;
  if go then
    sleep (sleepMillis options) ;;;
    perform (fun w => (match fst (scrollBy page w) with
                       | Some e => inl e
                       | None => inr tt
                       end, snd (scrollBy page w))) ;;;
    emit Scroll.ScrolledBy ;;;
    sleep (sleepMillis options) ;;;
    lastScroll <- perform (scrollY page) ;;
    emit (Scroll.ReadScrollY lastScroll) ;;;
    v <- getVars ;;
    let scrollChanged := Scroll.isChanging (Scroll.scrolls v) lastScroll in
    putVars (Scroll.mkVars (Scroll.addIfTruthy (Scroll.scrolls v) lastScroll)
               (Scroll.heights v) (Scroll.counter v)) ;;;
    bodyHeight <- perform (scrollHeight page) ;;
    emit (Scroll.ReadBodyHeight bodyHeight) ;;;
    v <- getVars ;;
    let bodyChanged := Scroll.isChanging (Scroll.heights v) bodyHeight in
    putVars (Scroll.mkVars (Scroll.scrolls v)
               (Scroll.addIfTruthy (Scroll.heights v) bodyHeight)
               (Scroll.counter v)) ;;;
    emit (Scroll.ScrollData scrollChanged bodyChanged) ;;;
    sleep (sleepMillis options) ;;;
    continue <- shouldContinue scrollChanged bodyChanged ;;
    if negb continue then ret true
    else
      v <- getVars ;;
      putVars (Scroll.mkVars (Scroll.scrolls v) (Scroll.heights v)
                 (S (Scroll.counter v))) ;;;
      ret false
  else ret false.

(** How things stand after some passes: the promise is resolved, the
    loop is still in [while (true)], or the promise is rejected. *)
Inductive ending : Type :=
| Resolved
| Scrolling
| Rejected (e : Err).

(** At most [passes] passes of the loop. *)
Fixpoint loop (passes : nat) (s : World * Scroll.Vars)
  : ending * (World * Scroll.Vars) * list Scroll.event :=
  match passes with
  | O => (Scrolling, s, [])
  | S n =>
      let '(r, s1, t1) := pass s in
      match r with
      | inl e => (Rejected e, s1, t1)
      | inr true => (Resolved, s1, t1)
      | inr false =>
          let '(o, s2, t2) := loop n s1 in (o, s2, t1 ++ t2)
      end
  end.

(** [scrollUntil(page, options)] *)
Definition scrollUntil (passes : nat) (w : World)
  : ending * (World * Scroll.Vars) * list Scroll.event :=
  loop passes (w, Scroll.mkVars ∅ ∅ 0%nat).

(** Some call of the page or of the options throws [e]. *)
Definition throws (e : Err) : Prop :=
  (exists w, fst (scrollBy page w) = Some e)
  \/ (exists w, fst (scrollY page w) = inl e)
  \/ (exists w, fst (scrollHeight page w) = inl e)
  \/ (exists sels w, fst (anyVisible page sels w) = inl e)
  \/ (exists w, fst (doScroll options w) = inl e)
  \/ (exists callback param w,
         maybeStop options = Some callback /\ fst (callback param w) = inl e).

(** [getServices]: the callback sleeps and returns
    [(count > 2 && !bodyChanged && !scrollChanged)
     || !(await page.$(CSS_SELECTORS.SERVICES))], where [page.$] can
    throw. *)
Variable hasServices : World -> (Err + bool) * World.

Definition servicesMaybeStop (param : Scroll.Params) (w : World)
  : (Err + bool) * World :=
  let w1 := elapse 300 w in
  if Nat.ltb 2 (Scroll.count param) && negb (Scroll.bodyChanged param)
     && negb (Scroll.scrollChanged param)
  then (inr true, w1)
  else (match fst (hasServices w1) with
        | inl e => inl e
        | inr present => inr (negb present)
        end, snd (hasServices w1)).

Definition servicesOptions : ScrollUntilOptions :=
  mkOptions [] (Some servicesMaybeStop) 300 (fun w => (inr true, w)).

(** A page and options none of whose calls throws. *)
Definition totalPage (p : Scroll.Page World) : Page :=
  mkPage (fun w => (None, Scroll.scrollBy p w))
         (fun w => (inr (fst (Scroll.scrollY p w)), snd (Scroll.scrollY p w)))
         (fun w => (inr (fst (Scroll.scrollHeight p w)),
                    snd (Scroll.scrollHeight p w)))
         (fun sels w => (inr (fst (Scroll.anyVisible p sels w)),
                         snd (Scroll.anyVisible p sels w))).

Definition totalOptions (o : Scroll.ScrollUntilOptions World)
  : ScrollUntilOptions :=
  mkOptions (Scroll.selectors o)
            (option_map (fun callback param w =>
                           (inr (fst (callback param w)), snd (callback param w)))
                        (Scroll.maybeStop o))
            (Scroll.sleepMillis o)
            (fun w => (inr (fst (Scroll.doScroll o w)), snd (Scroll.doScroll o w))).

Definition ofOutcome (o : Scroll.outcome) : ending :=
  match o with
  | Scroll.Stopped => Resolved
  | Scroll.Scrolling => Scrolling
  end.

End Rejecting.

Arguments Page : clear implicits.
Arguments ScrollUntilOptions : clear implicits.
Arguments ending : clear implicits.

(** A page that cannot scroll, and whose third look at the position
    fails: the world counts the looks. *)
Definition stuckThenClosed : Page nat string :=
  mkPage (fun w => (None, w))
         (fun w => (if Nat.ltb 1 w then inl "Target closed"%string
                    else inr (Scroll.JsNum 0), S w))
         (fun w => (inr (Scroll.JsNum 900), w))
         (fun _ w => (inr false, w)).

(** A page that cannot scroll and never fails. *)
Definition stuckPage : Page unit string :=
  mkPage (fun w => (None, w))
         (fun w => (inr (Scroll.JsNum 0), w))
         (fun w => (inr (Scroll.JsNum 900), w))
         (fun _ w => (inr false, w)).

(** No selectors, no [maybeStop], the default [doScroll]. *)
Definition defaultOptions {World : Type} : ScrollUntilOptions World string :=
  mkOptions [] None 1000 (fun w => (inr true, w)).

End Rejecting.

(** * Properties *)

(** ** The deferred signal *)

Section DeferredFacts.

Import Deferred.
Context {T E P : Type}.

Abbreviation state := (state T E P).
Abbreviation call := (call T E P).

(** Whatever the state before, a call leaves the flag set and the
    fate of the promise decided. *)
Lemma invoke_settles (c : call) (d : state) :
  resolved (invoke c d) = true /\ promise (invoke c d) <> Pending.
Proof.
  destruct c as [[v | p] | e], d as [[ | v0 | e0 | p0] flag];
    cbn; split; congruence.
Qed.

(** On a decided promise with the flag set, nothing changes. *)
Lemma invoke_settled (c : call) (d : state) :
  resolved d = true -> promise d <> Pending -> invoke c d = d.
Proof.
  destruct d as [f flag]; cbn; intros -> Hf.
  destruct c as [arg | e], f; cbn; congruence || reflexivity.
Qed.

Lemma run_snoc (cs : list call) (c : call) (d : state) :
  run (cs ++ [c]) d = invoke c (run cs d).
Proof. unfold run. now rewrite fold_left_app. Qed.

Lemma run_settles (cs : list call) (d : state) :
  cs <> [] -> resolved (run cs d) = true /\ promise (run cs d) <> Pending.
Proof.
  destruct cs as [ | c cs] using rev_ind; [congruence | intros _].
  rewrite run_snoc. apply invoke_settles.
Qed.

Lemma run_settled (cs : list call) (d : state) :
  resolved d = true -> promise d <> Pending -> run cs d = d.
Proof.
  intros Hr Hp. induction cs as [ | c cs IH] using rev_ind; [reflexivity | ].
  rewrite run_snoc, IH. now apply invoke_settled.
Qed.

(** C7. Once [resolve] or [reject] has been called on a deferred
    signal, every later [resolve] or [reject] is a no-op: the fate of
    the promise, and with it the value or error its observers get, is
    the one the earlier calls left, and [resolved] stays true. *)
Theorem settled_deferred_ignores_calls (before later : list call) :
  before <> [] ->
  promise (run later (run before deferred)) = promise (run before deferred)
  /\ resolved (run later (run before deferred)) = true
  /\ run later (run before deferred) = run before deferred.
Proof.
  intros Hcalled.
  destruct (run_settles before deferred Hcalled) as [Hflag Hfate].
  rewrite (run_settled later _ Hflag Hfate). auto.
Qed.

(** C9. [resolved] is false on a fresh deferred signal and true after
    a call of [resolve] as well as after a call of [reject]: it
    reports that the signal was settled, in either direction. *)
Theorem resolved_reports_any_settlement :
  resolved (deferred : state) = false
  /\ (forall arg (d : state), resolved (resolve arg d) = true)
  /\ (forall err (d : state), resolved (reject err d) = true)
  /\ (forall err, run [Reject err] (deferred : state) = mkState (Rejected err) true)
  /\ (forall cs : list call, resolved (run cs deferred) = true <-> cs <> []).
Proof.
  split; [reflexivity | ].
  split; [reflexivity | ].
  split; [reflexivity | ].
  split; [reflexivity | ].
  intros cs. split.
  - intros Hflag ->. discriminate Hflag.
  - intros Hcalled. now apply run_settles.
Qed.

End DeferredFacts.

Lemma settled_deferred_ignores_calls_witness :
  let before := [Deferred.Resolve (Deferred.Plain 1%Z)] in
  let later := [Deferred.Reject "late"%string; Deferred.Resolve (Deferred.Thenable tt)] in
  before <> []
  /\ Deferred.promise (Deferred.run later (Deferred.run before Deferred.deferred))
     = Deferred.Fulfilled 1%Z
  /\ Deferred.resolved (Deferred.run later (Deferred.run before Deferred.deferred))
     = true.
Proof.
  split; [discriminate | ].
  pose proof (@settled_deferred_ignores_calls Z string unit
                [Deferred.Resolve (Deferred.Plain 1%Z)]
                [Deferred.Reject "late"%string; Deferred.Resolve (Deferred.Thenable tt)])
    as H.
  destruct H as (Hp & Hr & _); [discriminate | ].
  split; [exact Hp | exact Hr].
Defined.

(** ** The range window *)

Section WindowFacts.

Import Window.

Lemma lt_diff_0 (a b : Moment.t) :
  Js.lt (Moment.diff a b) (Js.Num 0) = true <-> Moment.lt a b.
Proof.
  destruct a as [x | ], b as [y | ]; cbn; try (split; [discriminate | tauto]).
  rewrite Z.ltb_lt. lia.
Qed.

Lemma le_diff_0 (a b : Moment.t) :
  Js.le (Moment.diff a b) (Js.Num 0) = true <-> Moment.le a b.
Proof.
  destruct a as [x | ], b as [y | ]; cbn; try (split; [discriminate | tauto]).
  rewrite Z.leb_le. lia.
Qed.

Lemma ge_diff_0 (a b : Moment.t) :
  Js.ge (Moment.diff a b) (Js.Num 0) = true <-> Moment.le b a.
Proof.
  destruct a as [x | ], b as [y | ]; cbn; try (split; [discriminate | tauto]).
  rewrite Z.leb_le. lia.
Qed.

Lemma gt_diff_0 (a b : Moment.t) :
  Js.gt (Moment.diff a b) (Js.Num 0) = true <-> Moment.lt b a.
Proof.
  destruct a as [x | ], b as [y | ]; cbn; try (split; [discriminate | tauto]).
  rewrite Z.ltb_lt. lia.
Qed.

(** What [compare] decides, for any window and any moment. *)
Lemma compare_true_iff (w : MinMaxDates) (t : Moment.t) :
  compare w t = true
  <-> (forall lower, minDate w = Some lower -> Moment.le lower t)
      /\ (forall upper, maxDate w = Some upper -> Moment.le t upper).
Proof.
  unfold compare. rewrite andb_true_iff.
  destruct (minDate w) as [mn | ], (maxDate w) as [mx | ];
    rewrite ?le_diff_0, ?ge_diff_0; split.
  all: try (intros [Hlo Hhi]; split; intros b Hb; inversion Hb; subst; assumption).
  all: try (intros [Hlo Hhi]; split; auto; discriminate).
  all: try (intros [Hlo Hhi]; split; intros b Hb; discriminate).
  all: try (intros [Hlo Hhi]; split; try reflexivity; auto).
Qed.

Section Construction.

Context {Raw : Type}.
Variable falsy : Raw -> bool.
Variable toMoment : Raw -> Moment.t.

Abbreviation parse := (parseTimeUnit falsy toMoment).
Abbreviation construct := (minMaxDates falsy toMoment).

(** A window that was constructed has the parsed bounds, and they
    are not upside down. *)
Lemma minMaxDates_returns (input : MinMax) (w : MinMaxDates) :
  construct input = Returns w ->
  minDate w = parse (min input)
  /\ maxDate w = parse (max input)
  /\ (forall lower upper,
         minDate w = Some lower -> maxDate w = Some upper ->
         ~ Moment.lt upper lower).
Proof.
  unfold minMaxDates.
  destruct (parse (min input)) as [mn | ], (parse (max input)) as [mx | ].
  1: destruct (Js.lt (Moment.diff mx mn) (Js.Num 0)) eqn:Hlt; [discriminate | ].
  all: intros [= <-]; cbn; repeat split; try discriminate.
  intros lower upper [= <-] [= <-]. rewrite <- lt_diff_0. congruence.
Qed.

(** C6. Constructing a range window throws exactly when both bounds
    are present and the lower one is strictly later than the upper
    one; with a bound missing, or with lower <= upper, it returns
    the window of the two parsed bounds. *)
Theorem minMaxDates_throws_iff_bounds_reversed (input : MinMax) :
  ((exists mn mx, construct input = Throws mn mx)
   <-> (exists lower upper,
           parse (min input) = Some lower
           /\ parse (max input) = Some upper
           /\ Moment.lt upper lower))
  /\ (parse (min input) = None
      \/ parse (max input) = None
      \/ (exists lower upper,
             parse (min input) = Some lower
             /\ parse (max input) = Some upper
             /\ Moment.le lower upper)
      -> construct input
         = Returns (mkMinMaxDates (parse (min input)) (parse (max input)))).
Proof.
  unfold minMaxDates.
  destruct (parse (min input)) as [mn | ] eqn:Hmin,
           (parse (max input)) as [mx | ] eqn:Hmax.
  1: destruct (Js.lt (Moment.diff mx mn) (Js.Num 0)) eqn:Hlt.
  - apply lt_diff_0 in Hlt. split.
    + split; eauto 6.
    + intros [Hn | [Hn | (lower & upper & [= ->] & [= ->] & Hle)]];
        try discriminate.
      destruct lower, upper; cbn in *; try tauto; lia.
  - split; [ | reflexivity].
    split.
    + intros (a & b & Hab). discriminate.
    + intros (lower & upper & [= ->] & [= ->] & Hrev).
      apply lt_diff_0 in Hrev. congruence.
  - split; [ | reflexivity]. split.
    + intros (a & b & Hab). discriminate.
    + intros (lower & upper & _ & Hu & _). discriminate.
  - split; [ | reflexivity]. split.
    + intros (a & b & Hab). discriminate.
    + intros (lower & upper & Hl & _). discriminate.
  - split; [ | reflexivity]. split.
    + intros (a & b & Hab). discriminate.
    + intros (lower & upper & Hl & _). discriminate.
Qed.

(** C5. On a constructed window, [compare(t)] is true exactly when
    the lower bound, if there is one, is at or before [t] and the
    upper bound, if there is one, is at or after [t]. Both ends are
    inclusive: [compare] of a bound of the window is true (the
    bounds being dates, not the invalid date). *)
Theorem compare_within_inclusive_bounds
    (input : MinMax) (w : MinMaxDates) (t : Moment.t) :
  construct input = Returns w ->
  (compare w t = true
   <-> (forall lower, minDate w = Some lower -> Moment.le lower t)
       /\ (forall upper, maxDate w = Some upper -> Moment.le t upper))
  /\ ((forall b, minDate w = Some b \/ maxDate w = Some b ->
                 Moment.isValid b = true) ->
      (forall lower, minDate w = Some lower -> compare w lower = true)
      /\ (forall upper, maxDate w = Some upper -> compare w upper = true)).
Proof.
  intros Hw. split; [apply compare_true_iff | ].
  destruct (minMaxDates_returns input w Hw) as (_ & _ & Hord).
  intros Hvalid. split.
  - intros lower Hlo. apply compare_true_iff. split.
    + intros l Hl. assert (Heq : l = lower) by congruence. rewrite Heq.
      pose proof (Hvalid lower (or_introl Hlo)) as Hv.
      destruct lower; cbn in *; [lia | discriminate].
    + intros upper Hup.
      pose proof (Hvalid lower (or_introl Hlo)) as Hv.
      pose proof (Hvalid upper (or_intror Hup)) as Hv'.
      specialize (Hord lower upper Hlo Hup).
      destruct lower, upper; cbn in *; try discriminate; lia.
  - intros upper Hup. apply compare_true_iff. split.
    + intros lower Hlo.
      pose proof (Hvalid lower (or_introl Hlo)) as Hv.
      pose proof (Hvalid upper (or_intror Hup)) as Hv'.
      specialize (Hord lower upper Hlo Hup).
      destruct lower, upper; cbn in *; try discriminate; lia.
    + intros u Hu. assert (Heq : u = upper) by congruence. rewrite Heq.
      pose proof (Hvalid upper (or_intror Hup)) as Hv.
      destruct upper; cbn in *; [lia | discriminate].
Qed.

End Construction.

End WindowFacts.

Lemma minMaxDates_throws_iff_bounds_reversed_witness :
  Window.minMaxDates Window.falsyMillis Window.momentOfMillis (Window.mkMinMax (Some 100) (Some 200))
  = Window.Returns (Window.mkMinMaxDates (Some (Moment.Valid 100)) (Some (Moment.Valid 200)))
  /\ exists mn mx,
      Window.minMaxDates Window.falsyMillis Window.momentOfMillis (Window.mkMinMax (Some 200) (Some 100))
      = Window.Throws mn mx.
Proof.
  split.
  - apply (proj2 (minMaxDates_throws_iff_bounds_reversed Window.falsyMillis Window.momentOfMillis
                    (Window.mkMinMax (Some 100) (Some 200)))).
    right; right. exists (Moment.Valid 100), (Moment.Valid 200).
    repeat split; cbn; lia.
  - apply (proj1 (minMaxDates_throws_iff_bounds_reversed Window.falsyMillis Window.momentOfMillis
                    (Window.mkMinMax (Some 200) (Some 100)))).
    exists (Moment.Valid 200), (Moment.Valid 100).
    repeat split; cbn; lia.
Defined.

Lemma compare_within_inclusive_bounds_witness :
  let w := Window.mkMinMaxDates (Some (Moment.Valid 100)) (Some (Moment.Valid 200)) in
  Window.minMaxDates Window.falsyMillis Window.momentOfMillis (Window.mkMinMax (Some 100) (Some 200))
  = Window.Returns w
  /\ Window.compare w (Moment.Valid 100) = true
  /\ Window.compare w (Moment.Valid 200) = true.
Proof.
  intros w.
  assert (Hw : Window.minMaxDates Window.falsyMillis Window.momentOfMillis
                 (Window.mkMinMax (Some 100) (Some 200)) = Window.Returns w)
    by reflexivity.
  split; [exact Hw | ].
  destruct (compare_within_inclusive_bounds Window.falsyMillis Window.momentOfMillis
              _ w (Moment.Valid 150) Hw) as [_ Hends].
  destruct Hends as [Hlo Hhi].
  - intros b [[= <-] | [= <-]]; reflexivity.
  - split; [apply Hlo | apply Hhi]; reflexivity.
Defined.

(** ** The range-window counter *)

Section CounterFacts.

Import Counter.

Variable minMax : Window.MinMaxDates.

Lemma Stats_le_refl (s : Stats) : Stats_le s s.
Proof. unfold Stats_le. lia. Qed.

Lemma Stats_le_trans (s1 s2 s3 : Stats) :
  Stats_le s1 s2 -> Stats_le s2 s3 -> Stats_le s1 s3.
Proof. unfold Stats_le. lia. Qed.

Lemma time_le (value : Moment.t) (s : Stats) :
  Stats_le s (snd (time minMax value s)).
Proof.
  unfold time, Stats_le.
  destruct (negb (Window.compare minMax value)),
           (Js.gt (diffOrZero (Window.maxDate minMax) value) (Js.Num 0)),
           (Js.gt (diffOrZero (Window.minDate minMax) value) (Js.Num 0));
    cbn; lia.
Qed.

Lemma invoke_le (c : call) (s : Stats) :
  addsNothingNegative c -> Stats_le s (snd (invoke minMax c s)).
Proof.
  destruct c as [ | predicate | value | value | ]; cbn [invoke snd]; intros Hc.
  - apply Stats_le_refl.
  - unfold recordEmpty, Stats_le. destruct predicate; cbn; lia.
  - unfold add, Stats_le. cbn in *. lia.
  - apply time_le.
  - apply Stats_le_refl.
Qed.

(** C8. [empty], [add] with a non-negative argument and [time] (and
    the two queries) leave each of [total], [older], [newer],
    [outOfRange] and [empty] at or above its previous value; so the
    counters never decrease over a run of such calls. *)
Theorem counters_never_decrease (c : call) (cs : list call) (s : Stats) :
  addsNothingNegative c ->
  Forall addsNothingNegative cs ->
  Stats_le s (snd (invoke minMax c s))
  /\ Stats_le s (snd (run minMax cs s)).
Proof.
  intros Hc Hcs. split; [now apply invoke_le | ].
  clear c Hc. revert s.
  induction Hcs as [ | c cs Hc _ IH]; intros s; cbn [run snd].
  - apply Stats_le_refl.
  - eapply Stats_le_trans; [apply (invoke_le c s Hc) | apply IH].
Qed.

(** The counters that only ever go up by one are never negative. *)
Lemma reachable_nonneg (s : Stats) :
  reachable minMax s -> 0 <= older s /\ 0 <= outOfRange s /\ 0 <= empty s.
Proof.
  induction 1 as [ | c s Hs IH]; [cbn; lia | ].
  destruct c as [ | predicate | value | value | ]; cbn [invoke snd].
  - exact IH.
  - unfold recordEmpty. destruct predicate; cbn; lia.
  - exact IH.
  - pose proof (time_le value s) as Hle. unfold Stats_le in Hle. lia.
  - exact IH.
Qed.

(** Queries do not write. *)
Lemma run_queries (cs : list call) (s : Stats) :
  Forall (fun c => recording c = false) cs -> snd (run minMax cs s) = s.
Proof.
  induction 1 as [ | c cs Hc _ IH]; cbn [run snd]; [reflexivity | ].
  destruct c; cbn in Hc; try discriminate; cbn [invoke snd]; exact IH.
Qed.

(** [a / b > p/q] with exact division, by cross multiplication. *)
Lemma ratio_gt_cross (a b p : Z) (q : positive) :
  0 < p -> 0 <= a ->
  (Js.ratio_gt a b (p # q) = true <-> 0 < b /\ p * b < a * Z.pos q).
Proof.
  intros Hp Ha. unfold Js.ratio_gt.
  rewrite negb_true_iff, <- not_true_iff_false, Qle_bool_iff.
  destruct b as [ | b | b];
    unfold Qle, Qdiv, Qmult, Qinv, inject_Z; cbn; nia.
Qed.

Lemma ratio_gt_Qlt (a b : Z) (q : Q) :
  Js.ratio_gt a b q = true <-> (q < inject_Z a / inject_Z b)%Q.
Proof.
  unfold Js.ratio_gt.
  rewrite negb_true_iff, <- not_true_iff_false, Qle_bool_iff.
  split; [apply Qnot_le_lt | apply Qlt_not_le].
Qed.

Lemma isOver_true_iff (s : Stats) :
  0 <= older s -> 0 <= empty s ->
  (isOver s = true <-> stagnant s).
Proof.
  intros Holder Hempty. unfold isOver, stagnant, Js.truthy.
  rewrite orb_true_iff, andb_true_iff, Z.ltb_lt.
  rewrite <- !ratio_gt_Qlt.
  pose proof (ratio_gt_cross (older s) (total s) 7 10 ltac:(lia) Holder) as Ho.
  pose proof (ratio_gt_cross (empty s) (total s) 2 10 ltac:(lia) Hempty) as He.
  destruct (Z.eqb_spec (older s) 0) as [Ho0 | Ho0],
           (Z.eqb_spec (total s) 0) as [Ht0 | Ht0],
           (Z.eqb_spec (empty s) 0) as [He0 | He0];
    cbn [negb andb];
    destruct (Js.ratio_gt (older s) (total s) (7 # 10)),
             (Js.ratio_gt (empty s) (total s) (2 # 10));
    intuition (try discriminate; try lia).
Qed.

(** C2. In every counter state a run can reach, [isOver()] is true
    exactly when ([outOfRange > 0], [total > 0] and
    [older / total > 0.7]) or ([total > 0] and [empty / total > 0.2]);
    and once it is true, it is true again after any number of calls
    that record nothing. *)
Theorem isOver_iff_stagnant_and_stable (s : Stats) :
  reachable minMax s ->
  (isOver s = true <-> stagnant s)
  /\ (isOver s = true ->
      forall queries,
        Forall (fun c => recording c = false) queries ->
        fst (invoke minMax CallIsOver (snd (run minMax queries s)))
        = Boolean true).
Proof.
  intros Hs. destruct (reachable_nonneg s Hs) as (Ho & _ & He).
  split; [now apply isOver_true_iff | ].
  intros Hover queries Hq. rewrite (run_queries queries s Hq).
  cbn. now rewrite Hover.
Qed.

End CounterFacts.

Section TimeFacts.

Import Counter.

Lemma run_reachable (minMax : Window.MinMaxDates) (cs : list call) (s : Stats) :
  reachable minMax s -> reachable minMax (snd (run minMax cs s)).
Proof.
  revert s. induction cs as [ | c cs IH]; intros s Hs; cbn [run snd]; [exact Hs | ].
  apply IH. now constructor.
Qed.

(** What [time(t)] does, counter by counter: [older] moves when the
    upper bound is strictly later than [t], and [newer] moves when the
    lower bound is strictly later than [t] as well. *)
Lemma time_counts (minMax : Window.MinMaxDates) (t : Moment.t) (s : Stats) :
  fst (time minMax t s) = Window.compare minMax t
  /\ outOfRange (snd (time minMax t s))
     = outOfRange s + step (negb (Window.compare minMax t))
  /\ older (snd (time minMax t s))
     = older s + step (Js.gt (diffOrZero (Window.maxDate minMax) t) (Js.Num 0))
  /\ newer (snd (time minMax t s))
     = newer s + step (Js.gt (diffOrZero (Window.minDate minMax) t) (Js.Num 0))
  /\ total (snd (time minMax t s)) = total s
  /\ empty (snd (time minMax t s)) = empty s.
Proof.
  unfold time.
  destruct (negb (Window.compare minMax t)),
           (Js.gt (diffOrZero (Window.maxDate minMax) t) (Js.Num 0)),
           (Js.gt (diffOrZero (Window.minDate minMax) t) (Js.Num 0));
    cbn; repeat split; lia.
Qed.

Lemma diffOrZero_gt_iff (bound : option Moment.t) (t : Moment.t) :
  Js.gt (diffOrZero bound t) (Js.Num 0) = true
  <-> exists b, bound = Some b /\ Moment.lt t b.
Proof.
  destruct bound as [b | ]; cbn [diffOrZero Js.nullish option_map].
  - rewrite gt_diff_0. split; [eauto | ].
    intros (b' & [= <-] & Hlt). exact Hlt.
  - cbn. split; [discriminate | ]. intros (b & Hb & _). discriminate.
Qed.

(** C3, at a window whose only bound is the lower one, at 100. The
    lower bound is strictly earlier than the timestamp 200, and
    [time(200)] leaves [newer] alone; it is not earlier than the
    timestamp 50, and [time(50)] increments [newer]. *)
Theorem time_newer_counts_before_lower_bound :
  let minMax := Window.mkMinMaxDates (Some (Moment.Valid 100)) None in
  Window.compare minMax (Moment.Valid 200) = true
  /\ snd (time minMax (Moment.Valid 200) initial) = mkStats 0 0 0 0 0
  /\ Window.compare minMax (Moment.Valid 50) = false
  /\ snd (time minMax (Moment.Valid 50) initial) = mkStats 0 1 0 1 0.
Proof. repeat split. Qed.

End TimeFacts.

Lemma counters_never_decrease_witness :
  let minMax := Window.mkMinMaxDates (Some (Moment.Valid 100)) None in
  let calls := [Counter.CallEmpty false; Counter.CallAdd 10;
                Counter.CallTime (Moment.Valid 50)] in
  Counter.addsNothingNegative (Counter.CallAdd 10)
  /\ Forall Counter.addsNothingNegative calls
  /\ Counter.Stats_le Counter.initial (Counter.mkStats 10 0 0 0 0)
  /\ Counter.Stats_le Counter.initial (Counter.mkStats 10 1 0 1 1).
Proof.
  intros minMax calls.
  assert (Hadd : Counter.addsNothingNegative (Counter.CallAdd 10)) by (cbn; lia).
  assert (Hcalls : Forall Counter.addsNothingNegative calls)
    by (repeat constructor; cbn; lia).
  split; [exact Hadd | ].
  split; [exact Hcalls | ].
  exact (counters_never_decrease minMax (Counter.CallAdd 10) calls
           Counter.initial Hadd Hcalls).
Defined.

Lemma isOver_iff_stagnant_and_stable_witness :
  let minMax := Window.mkMinMaxDates (Some (Moment.Valid 60)) (Some (Moment.Valid 100)) in
  let s := snd (Counter.run minMax
                  [Counter.CallAdd 1; Counter.CallTime (Moment.Valid 50)]
                  Counter.initial) in
  Counter.reachable minMax s
  /\ Counter.isOver s = true
  /\ Counter.stagnant s
  /\ fst (Counter.invoke minMax Counter.CallIsOver
            (snd (Counter.run minMax [Counter.CallStats; Counter.CallIsOver] s)))
     = Counter.Boolean true.
Proof.
  intros minMax s.
  assert (Hs : Counter.reachable minMax s)
    by (apply run_reachable; constructor).
  destruct (isOver_iff_stagnant_and_stable minMax s Hs) as [Hiff Hstable].
  assert (Hover : Counter.isOver s = true) by (vm_compute; reflexivity).
  split; [exact Hs | ].
  split; [exact Hover | ].
  split; [apply Hiff; exact Hover | ].
  apply Hstable; [exact Hover | ].
  repeat constructor.
Defined.

(** ** The collector loop *)

Section ScrollFacts.

Import Scroll.

Lemma isChanging_num (histogram : gset Z) (n : Z) :
  isChanging histogram (JsNum n) = true <-> n ∉ histogram.
Proof.
  cbn. rewrite forallb_forall. split.
  - intros Hall Hin. apply elem_of_elements, list_elem_of_In in Hin.
    specialize (Hall n Hin). rewrite Z.eqb_refl in Hall. discriminate.
  - intros Hout val Hin. apply list_elem_of_In, elem_of_elements in Hin.
    destruct (Z.eqb_spec n val) as [-> | Hne]; [contradiction | reflexivity].
Qed.

Lemma addIfTruthy_zero_free (histogram : gset Z) (sample : value) :
  0 ∉ histogram -> 0 ∉ addIfTruthy histogram sample.
Proof.
  intros Hfree. destruct sample as [ | | n]; cbn; try assumption.
  destruct (Z.eqb_spec n 0) as [Hz | Hne]; cbn; [assumption | ].
  rewrite elem_of_union, elem_of_singleton. intros [Heq | Hin]; [ | contradiction].
  now apply Hne.
Qed.

(** One signal, sampled against a histogram without zero. *)
Lemma sample_sampled (histogram : gset Z) (sample : value) :
  0 ∉ histogram ->
  sampled sample histogram (isChanging histogram sample)
          (addIfTruthy histogram sample).
Proof.
  intros Hfree. destruct sample as [ | | n]; try (split; reflexivity).
  unfold sampled, addIfTruthy, truthy.
  destruct (Z.eqb_spec n 0) as [-> | Hne]; cbn [negb].
  - split; [now apply isChanging_num | reflexivity].
  - split; [apply isChanging_num | reflexivity].
Qed.

Context {World : Type}.
Variable elapse : Z -> World -> World.
Variable page : Page World.
Variable options : ScrollUntilOptions World.

Abbreviation millis := (sleepMillis options).

(** [shouldContinue] leaves the variables of the closure alone, and
    all it does is consult the stop condition. *)
Lemma shouldContinue_result (sc bc : bool) (w : World) (v : Vars) :
  snd (snd (fst (shouldContinue page options sc bc (w, v)))) = v
  /\ Forall (fun e => consultsStop e = true)
            (snd (shouldContinue page options sc bc (w, v))).
Proof.
  unfold shouldContinue, bind, perform, emit, ret, getVars.
  destruct (selectors options) as [ | sel sels]; cbn.
  - destruct (maybeStop options) as [callback | ]; cbn; [ | auto].
    destruct (callback _ w) as [stop w1]; cbn. auto.
  - destruct (anyVisible page (sel :: sels) w) as [found w1]; cbn.
    destruct found; cbn; [auto | ].
    destruct (maybeStop options) as [callback | ]; cbn; [ | auto].
    destruct (callback _ w1) as [stop w2]; cbn. auto.
Qed.

(** A pass in which [doScroll] says no. *)
Lemma pass_idle (w : World) (v : Vars) :
  fst (doScroll options (elapse millis w)) = false ->
  pass elapse page options (w, v)
  = (false, (snd (doScroll options (elapse millis w)), v),
     idleEvents millis).
Proof.
  intros Hgo. unfold pass, sleep, bind, perform, emit, ret. cbn.
  destruct (doScroll options _) as [go w1]. cbn in *. subst go. reflexivity.
Qed.

(** A pass in which [doScroll] says yes. *)
Lemma pass_scroll (w : World) (v : Vars) :
  fst (doScroll options (elapse millis w)) = true ->
  exists (lastScroll bodyHeight : value) (continue : bool) (w' : World)
         (consulted : list event),
    let scrollChanged := isChanging (scrolls v) lastScroll in
    let bodyChanged := isChanging (heights v) bodyHeight in
    let scrolls' := addIfTruthy (scrolls v) lastScroll in
    let heights' := addIfTruthy (heights v) bodyHeight in
    Forall (fun e => consultsStop e = true) consulted
    /\ pass elapse page options (w, v)
       = (negb continue,
          (w', mkVars scrolls' heights'
                 (if continue then S (counter v) else counter v)),
          scrollEvents millis lastScroll bodyHeight scrollChanged bodyChanged
          ++ consulted).
Proof.
  intros Hgo. unfold pass, sleep, bind, perform, emit, ret, getVars, putVars. cbn.
  destruct (doScroll options _) as [go w1]. cbn in *. subst go.
  destruct (scrollY page _) as [lastScroll w2]. cbn.
  destruct (scrollHeight page _) as [bodyHeight w3]. cbn.
  match goal with
  | |- context [shouldContinue page options ?sc ?bc (?w4, ?v4)] =>
      pose proof (shouldContinue_result sc bc w4 v4) as [Hvars Hevs];
      destruct (shouldContinue page options sc bc (w4, v4))
        as [[continue [w5 v5]] consulted]
  end.
  cbn in Hvars, Hevs. subst v5.
  exists lastScroll, bodyHeight, continue, w5, consulted.
  split; [exact Hevs | ].
  destruct continue; cbn; rewrite ?app_nil_r; reflexivity.
Qed.

Lemma pass_zero_free (w : World) (v : Vars) :
  zeroFree v -> zeroFree (snd (snd (fst (pass elapse page options (w, v))))).
Proof.
  intros [Hs Hh].
  destruct (fst (doScroll options (elapse millis w))) eqn:Hgo.
  - destruct (pass_scroll w v Hgo)
      as (lastScroll & bodyHeight & continue & w' & consulted & _ & ->).
    split; cbn; now apply addIfTruthy_zero_free.
  - rewrite (pass_idle w v Hgo). now split.
Qed.

Lemma loop_zero_free (n : nat) (w : World) (v : Vars) :
  zeroFree v -> zeroFree (snd (snd (fst (loop elapse page options n (w, v))))).
Proof.
  revert w v. induction n as [ | n IH]; intros w v Hfree; [exact Hfree | ].
  cbn [loop]. unfold bind.
  pose proof (pass_zero_free w v Hfree) as Hpass.
  destruct (pass elapse page options (w, v)) as [[stop [w1 v1]] evs1].
  cbn in Hpass. destruct stop; cbn; [exact Hpass | ].
  specialize (IH w1 v1 Hpass).
  destruct (loop elapse page options n (w1, v1)) as [[o [w2 v2]] evs2].
  exact IH.
Qed.

(** C4, as the loop has it. In every iteration that scrolls, a [null]
    (or [undefined]) sample is not inserted and its signal is not
    classified as changed; a zero sample is not inserted either, but
    its signal is classified as changed, zero never being in the
    histogram; any other sample is classified as changed exactly when
    it is absent from the histogram at that time, and is then
    inserted. The iteration is the one that follows [n] passes. *)
Theorem every_iteration_samples_by_policy
    (n : nat) (w0 w : World) (v : Vars) (earlier : list event) :
  scrollUntil elapse page options n w0 = (Scrolling, (w, v), earlier) ->
  fst (doScroll options (elapse millis w)) = true ->
  exists (lastScroll bodyHeight : value) (scrollChanged bodyChanged : bool)
         (consulted : list event),
    let r := pass elapse page options (w, v) in
    snd r = scrollEvents millis lastScroll bodyHeight scrollChanged bodyChanged
            ++ consulted
    /\ Forall (fun e => consultsStop e = true) consulted
    /\ sampled lastScroll (scrolls v) scrollChanged (scrolls (snd (snd (fst r))))
    /\ sampled bodyHeight (heights v) bodyChanged (heights (snd (snd (fst r)))).
Proof.
  intros Hrun Hgo.
  assert (Hfree : zeroFree v).
  { pose proof (loop_zero_free n w0 (mkVars ∅ ∅ 0%nat)) as H.
    unfold scrollUntil in Hrun. rewrite Hrun in H. apply H.
    split; cbn; apply not_elem_of_empty. }
  destruct Hfree as [Hs Hh].
  destruct (pass_scroll w v Hgo)
    as (lastScroll & bodyHeight & continue & w' & consulted & Hcons & Hpass).
  exists lastScroll, bodyHeight, (isChanging (scrolls v) lastScroll),
         (isChanging (heights v) bodyHeight), consulted.
  cbn zeta in *. rewrite Hpass. cbn [fst snd scrolls heights].
  split; [reflexivity | ].
  split; [exact Hcons | ].
  split; now apply sample_sampled.
Qed.

Lemma idleEvents_silent :
  Forall (fun e => consultsStop e = false) (idleEvents millis).
Proof. repeat constructor. Qed.

(** With a [doScroll] that always says no, [n] passes are [n] idle
    passes. *)
Lemma loop_idle (n : nat) (w : World) (v : Vars) :
  (forall w, fst (doScroll options w) = false) ->
  exists w',
    loop elapse page options n (w, v)
    = (Scrolling, (w', v), concat (repeat (idleEvents millis) n)).
Proof.
  intros Hno. revert w. induction n as [ | n IH]; intros w.
  - exists w. reflexivity.
  - cbn [loop]. unfold bind. rewrite (pass_idle w v (Hno _)).
    destruct (IH (snd (doScroll options (elapse millis w)))) as [w' ->].
    exists w'. reflexivity.
Qed.

(** C10. The stop markers and [maybeStop] are consulted only in a
    pass in which [doScroll] returned true. When [doScroll] always
    returns false, then however many passes the loop makes, it is
    still in [while (true)], the iteration counter is still 0, and
    the stop condition was never consulted. *)
Theorem stop_condition_waits_for_doScroll :
  (forall (w : World) (v : Vars) (e : event),
      In e (snd (pass elapse page options (w, v))) ->
      consultsStop e = true ->
      fst (doScroll options (elapse millis w)) = true
      /\ In (AskedDoScroll true) (snd (pass elapse page options (w, v))))
  /\ ((forall w, fst (doScroll options w) = false) ->
      forall (n : nat) (w : World),
      exists w',
        scrollUntil elapse page options n w
        = (Scrolling, (w', mkVars ∅ ∅ 0%nat),
           concat (repeat (idleEvents millis) n))
        /\ Forall (fun e => consultsStop e = false)
                  (snd (scrollUntil elapse page options n w))).
Proof.
  split.
  - intros w v e Hin He.
    destruct (fst (doScroll options (elapse millis w))) eqn:Hgo.
    + split; [reflexivity | ].
      destruct (pass_scroll w v Hgo)
        as (lastScroll & bodyHeight & continue & w' & consulted & _ & ->).
      cbn. tauto.
    + rewrite (pass_idle w v Hgo) in Hin. cbn in Hin.
      destruct Hin as [<- | [<- | []]]; discriminate He.
  - intros Hno n w. unfold scrollUntil.
    destruct (loop_idle n w (mkVars ∅ ∅ 0%nat) Hno) as [w' ->].
    exists w'. split; [reflexivity | ].
    cbn [snd]. apply Forall_concat, Forall_forall.
    intros evs Hevs. apply list_elem_of_In, repeat_spec in Hevs. subst evs.
    apply idleEvents_silent.
Qed.

End ScrollFacts.

(** The second iteration on the growing page: 1200 is read for the
    position and 3200 for the height, both new. *)
Lemma every_iteration_samples_by_policy_witness :
  let still := fun (_ : Z) (w : nat) => w in
  let first := Scroll.scrollUntil still Scroll.growingPage Scroll.stopAfterTwo 1 0%nat in
  fst (fst first) = Scroll.Scrolling
  /\ fst (Scroll.doScroll Scroll.stopAfterTwo (fst (snd (fst first)))) = true
  /\ exists lastScroll bodyHeight scrollChanged bodyChanged consulted,
      snd (Scroll.pass still Scroll.growingPage Scroll.stopAfterTwo (snd (fst first)))
      = Scroll.scrollEvents 1000 lastScroll bodyHeight scrollChanged bodyChanged
        ++ consulted
      /\ Scroll.sampled lastScroll (Scroll.scrolls (snd (snd (fst first))))
           scrollChanged
           (Scroll.scrolls
              (snd (snd (fst (Scroll.pass still Scroll.growingPage Scroll.stopAfterTwo
                                (snd (fst first))))))).
Proof.
  intros still first.
  split; [reflexivity | ].
  split; [reflexivity | ].
  destruct (every_iteration_samples_by_policy still Scroll.growingPage
              Scroll.stopAfterTwo 1 0%nat
              (fst (snd (fst first))) (snd (snd (fst first))) (snd first))
    as (lastScroll & bodyHeight & scrollChanged & bodyChanged & consulted
        & Hevs & _ & Hscroll & _).
  - reflexivity.
  - reflexivity.
  - exists lastScroll, bodyHeight, scrollChanged, bodyChanged, consulted.
    split; [exact Hevs | exact Hscroll].
Defined.

(** C4 as stated fails on a page that has not moved: the position read
    is 0, the height read is 0, and both signals are reported as
    changed, where a zero sample was to count as unchanged. *)
Lemma zero_sample_is_classified_as_changed :
  snd (Scroll.scrollUntil (fun _ w => w) Scroll.stillPage Scroll.defaultOptions 1 tt)
  = Scroll.scrollEvents 1000 (Scroll.JsNum 0) (Scroll.JsNum 0) true true
  /\ ~ Scroll.sampledZeroAsNull (Scroll.JsNum 0) ∅
         (Scroll.isChanging ∅ (Scroll.JsNum 0))
         (Scroll.addIfTruthy ∅ (Scroll.JsNum 0)).
Proof.
  split; [reflexivity | ].
  intros [Hchanged _]. discriminate Hchanged.
Qed.

Lemma stop_condition_waits_for_doScroll_witness :
  (forall w, fst (Scroll.doScroll Scroll.neverScroll w) = false)
  /\ exists w',
      Scroll.scrollUntil (fun _ w => w) Scroll.growingPage Scroll.neverScroll 3 0%nat
      = (Scroll.Scrolling, (w', Scroll.mkVars ∅ ∅ 0%nat),
         concat (repeat (Scroll.idleEvents 1000) 3)).
Proof.
  split; [reflexivity | ].
  destruct (proj2 (stop_condition_waits_for_doScroll (fun _ w => w)
                     Scroll.growingPage Scroll.neverScroll)
              (fun w => eq_refl) 3%nat 0%nat) as [w' [Hrun _]].
  exists w'. exact Hrun.
Defined.

(** * Further properties of the code *)

(** ** The collector loop and its callers *)

Section ScrollMore.

Import Scroll.

Context {World : Type}.
Variable elapse : Z -> World -> World.
Variable page : Page World.
Variable options : ScrollUntilOptions World.

Abbreviation ms := (sleepMillis options).

(** The argument [maybeStop] gets in the state [v]. *)
Abbreviation paramOf sc bc v :=
  (mkParams (counter v) sc bc (size (scrolls v)) (size (heights v))).

(** The three ways [shouldContinue] can go. *)
Lemma shouldContinue_cases (sc bc : bool) (w : World) (v : Vars) :
  let r := shouldContinue page options sc bc (w, v) in
  (selectors options <> []
   /\ fst (anyVisible page (selectors options) w) = true
   /\ r = (false, (snd (anyVisible page (selectors options) w), v),
           [QueriedSelectors true]))
  \/ exists (asked : list event) (w1 : World),
      ((selectors options = [] /\ asked = [] /\ w1 = w)
       \/ (selectors options <> []
           /\ anyVisible page (selectors options) w = (false, w1)
           /\ asked = [QueriedSelectors false]))
      /\ match maybeStop options with
         | Some callback =>
             r = (negb (fst (callback (paramOf sc bc v) w1)),
                  (snd (callback (paramOf sc bc v) w1), v),
                  asked ++ [AskedMaybeStop (paramOf sc bc v)
                              (fst (callback (paramOf sc bc v) w1))])
         | None => r = (true, (w1, v), asked)
         end.
Proof.
  unfold shouldContinue, bind, perform, emit, ret, getVars.
  destruct (selectors options) as [ | sel sels] eqn:Hsel; cbn.
  - right. exists [], w. split; [left; auto | ].
    destruct (maybeStop options) as [callback | ]; cbn; [ | reflexivity].
    destruct (callback _ w) as [stop w1]; reflexivity.
  - destruct (anyVisible page (sel :: sels) w) as [found w1] eqn:Hvis; cbn.
    destruct found; cbn.
    + left. repeat split. discriminate.
    + right. exists [QueriedSelectors false], w1.
      split; [right; repeat split; discriminate | ].
      destruct (maybeStop options) as [callback | ]; cbn; [ | reflexivity].
      destruct (callback _ w1) as [stop w2]; reflexivity.
Qed.

(** A pass that scrolls, with every intermediate world spelled out. *)
Lemma pass_scroll_exact (w : World) (v : Vars) :
  fst (doScroll options (elapse ms w)) = true ->
  let w1 := elapse ms (scrollBy page
              (elapse ms (snd (doScroll options (elapse ms w))))) in
  let lastScroll := fst (scrollY page w1) in
  let bodyHeight := fst (scrollHeight page (snd (scrollY page w1))) in
  let w2 := elapse ms (snd (scrollHeight page (snd (scrollY page w1)))) in
  let sc := isChanging (scrolls v) lastScroll in
  let bc := isChanging (heights v) bodyHeight in
  let v1 := mkVars (addIfTruthy (scrolls v) lastScroll)
                   (addIfTruthy (heights v) bodyHeight) (counter v) in
  let r := shouldContinue page options sc bc (w2, v1) in
  pass elapse page options (w, v)
  = (negb (fst (fst r)),
     (fst (snd (fst r)),
      mkVars (scrolls v1) (heights v1)
             (if fst (fst r) then S (counter v) else counter v)),
     scrollEvents ms lastScroll bodyHeight sc bc ++ snd r).
Proof.
  intros Hgo. unfold pass, sleep, bind, perform, emit, ret, getVars, putVars. cbn.
  destruct (doScroll options _) as [go w1]. cbn in *. subst go.
  destruct (scrollY page _) as [lastScroll w2]. cbn.
  destruct (scrollHeight page _) as [bodyHeight w3]. cbn.
  match goal with
  | |- context [shouldContinue page options ?sc ?bc (?w4, ?v4)] =>
      pose proof (shouldContinue_result page options sc bc w4 v4) as [Hvars _];
      destruct (shouldContinue page options sc bc (w4, v4))
        as [[continue [w5 v5]] consulted]
  end.
  cbn in Hvars. subst v5.
  destruct continue; cbn; rewrite ?app_nil_r; reflexivity.
Qed.

(** The counter after a pass that scrolls: one more, unless the pass
    ended the loop. *)
Lemma pass_counter (w : World) (v : Vars) :
  fst (doScroll options (elapse ms w)) = true ->
  counter (snd (snd (fst (pass elapse page options (w, v)))))
  = if fst (fst (pass elapse page options (w, v)))
    then counter v else S (counter v).
Proof.
  intros Hgo. rewrite (pass_scroll_exact w v Hgo). cbn.
  match goal with |- context [shouldContinue page options ?sc ?bc ?s] =>
    destruct (fst (fst (shouldContinue page options sc bc s))) end; reflexivity.
Qed.

Lemma loop_step (n : nat) (s : World * Vars) :
  loop elapse page options (S n) s
  = (let p := pass elapse page options s in
     if fst (fst p) then (Stopped, snd (fst p), snd p ++ [])
     else let r := loop elapse page options n (snd (fst p)) in
          (fst (fst r), snd (fst r), snd p ++ snd r)).
Proof.
  cbn [loop]. unfold bind.
  destruct (pass elapse page options s) as [[stop s1] evs1]. cbn.
  destruct stop; cbn; [reflexivity | ].
  destruct (loop elapse page options n s1) as [[o s2] evs2]. reflexivity.
Qed.

Section StopsByCount.

(** [doScroll] always says yes, and under the invariant [I] a pass that
    starts with the counter above [limit] ends the loop. *)
Variable I : Vars -> Prop.
Variable limit : nat.
Hypothesis always : forall w, fst (doScroll options w) = true.
Hypothesis kept :
  forall w v, I v -> I (snd (snd (fst (pass elapse page options (w, v))))).
Hypothesis stops :
  forall w v, I v -> (limit < counter v)%nat ->
              fst (fst (pass elapse page options (w, v))) = true.

Lemma loop_stops_by_count (k passes : nat) (w : World) (v : Vars) :
  I v -> (limit < counter v + k)%nat -> (k < passes)%nat ->
  fst (fst (loop elapse page options passes (w, v))) = Stopped
  /\ (counter (snd (snd (fst (loop elapse page options passes (w, v)))))
      <= Nat.max (counter v) (S limit))%nat.
Proof.
  revert passes w v. induction k as [ | k IH]; intros passes w v Hinv Hk Hfuel.
  - destruct passes as [ | n]; [lia | ].
    rewrite loop_step. cbn zeta.
    pose proof (pass_counter w v (always _)) as Hc.
    pose proof (stops w v Hinv ltac:(lia)) as Hstop.
    destruct (pass elapse page options (w, v)) as [[stop [w1 v1]] evs1].
    cbn in *. subst stop. cbn. split; [reflexivity | lia].
  - destruct passes as [ | n]; [lia | ].
    rewrite loop_step. cbn zeta.
    pose proof (pass_counter w v (always _)) as Hc.
    pose proof (kept w v Hinv) as Hinv'.
    pose proof (stops w v Hinv) as Hstop.
    destruct (pass elapse page options (w, v)) as [[stop [w1 v1]] evs1].
    cbn in *. destruct stop; cbn; [split; [reflexivity | lia] | ].
    destruct (IH n w1 v1 Hinv' ltac:(lia) ltac:(lia)) as [Hout Hcount].
    split; [exact Hout | ].
    assert (counter v <= limit)%nat.
    { destruct (Nat.leb_spec (counter v) limit) as [Hle | Hgt]; [exact Hle | ].
      specialize (Hstop Hgt). discriminate. }
    lia.
Qed.

End StopsByCount.

(** X1. A [maybeStop] that says yes whenever [count] is above a limit
    bounds the loop: with the default [doScroll], whatever the page
    does, the loop has stopped after [limit + 2] passes, with the
    counter at most [limit + 1]. *)
Theorem scrollUntil_stops_by_count
    (limit : nat) (callback : Params -> World -> bool * World) (w : World) :
  (forall w, fst (doScroll options w) = true) ->
  maybeStop options = Some callback ->
  (forall param w, (limit < count param)%nat -> fst (callback param w) = true) ->
  fst (fst (scrollUntil elapse page options (limit + 2) w)) = Stopped
  /\ (counter (snd (snd (fst (scrollUntil elapse page options (limit + 2) w))))
      <= S limit)%nat.
Proof.
  intros Halways Hcb Hlimit. unfold scrollUntil.
  assert (Hstops : forall w0 v, True -> (limit < counter v)%nat ->
                     fst (fst (pass elapse page options (w0, v))) = true).
  { intros w0 v _ Hgt. rewrite (pass_scroll_exact w0 v (Halways _)). cbn.
    match goal with |- context [shouldContinue page options ?sc ?bc (?w2, ?v1)] =>
      destruct (shouldContinue_cases sc bc w2 v1)
        as [(_ & _ & ->) | (asked & w1 & _ & Hr)]; [reflexivity | ] end.
    rewrite Hcb in Hr. rewrite Hr. cbn.
    rewrite Hlimit; [reflexivity | exact Hgt]. }
  pose proof (loop_stops_by_count (fun _ => True) limit Halways
                (fun _ _ _ => Logic.I) Hstops (S limit) (limit + 2)%nat w
                (mkVars ∅ ∅ 0%nat) Logic.I) as Hloop.
  cbn [counter] in Hloop.
  destruct Hloop as [Hout Hcount]; [lia | lia | ].
  split; [exact Hout | lia].
Qed.

Lemma addIfTruthy_stale (histogram : gset Z) (sample : value) :
  sample <> JsNum 0 -> isChanging (addIfTruthy histogram sample) sample = false.
Proof.
  intros Hnz. destruct sample as [ | | n]; try reflexivity.
  apply not_true_iff_false. rewrite isChanging_num.
  unfold addIfTruthy, truthy.
  destruct (Z.eqb_spec n 0) as [Hz | Hne]; [congruence | ].
  cbn [negb]. intros Hout. apply Hout, elem_of_union_l, elem_of_singleton.
  reflexivity.
Qed.

(** X2. On a page whose position and height no longer change (neither
    being 0), a [maybeStop] that gives up once [count] is above a limit
    and nothing changed ends the loop within [limit + 2] passes. *)
Theorem scrollUntil_stops_on_stalled_page
    (limit : nat) (callback : Params -> World -> bool * World)
    (position height : value) (w : World) :
  (forall w, fst (doScroll options w) = true) ->
  maybeStop options = Some callback ->
  (forall param w,
      (limit < count param)%nat ->
      scrollChanged param = false -> bodyChanged param = false ->
      fst (callback param w) = true) ->
  (forall w, fst (scrollY page w) = position) ->
  (forall w, fst (scrollHeight page w) = height) ->
  position <> JsNum 0 -> height <> JsNum 0 ->
  fst (fst (scrollUntil elapse page options (limit + 2) w)) = Stopped
  /\ (counter (snd (snd (fst (scrollUntil elapse page options (limit + 2) w))))
      <= S limit)%nat.
Proof.
  intros Halways Hcb Hgiveup Hpos Hheight Hp0 Hh0. unfold scrollUntil.
  set (I := fun v => counter v = 0%nat \/ Callers.stale position height v).
  assert (Hkept : forall w0 v, I v ->
                    I (snd (snd (fst (pass elapse page options (w0, v)))))).
  { intros w0 v _. right. rewrite (pass_scroll_exact w0 v (Halways _)).
    cbn. rewrite Hpos, Hheight. split; cbn; now apply addIfTruthy_stale. }
  assert (Hstops : forall w0 v, I v -> (limit < counter v)%nat ->
                     fst (fst (pass elapse page options (w0, v))) = true).
  { intros w0 v [Hzero | [Hs Hh]] Hgt; [lia | ].
    rewrite (pass_scroll_exact w0 v (Halways _)). cbn.
    rewrite Hpos, Hheight, Hs, Hh.
    match goal with |- context [shouldContinue page options ?sc ?bc (?w2, ?v1)] =>
      destruct (shouldContinue_cases sc bc w2 v1)
        as [(_ & _ & ->) | (asked & w1 & _ & Hr)]; [reflexivity | ] end.
    rewrite Hcb in Hr. rewrite Hr. cbn.
    rewrite Hgiveup; [reflexivity | exact Hgt | reflexivity | reflexivity]. }
  pose proof (loop_stops_by_count I limit Halways Hkept Hstops (S limit)
                (limit + 2)%nat w (mkVars ∅ ∅ 0%nat)) as Hloop.
  cbn [counter] in Hloop.
  destruct Hloop as [Hout Hcount]; [now left | lia | lia | ].
  split; [exact Hout | lia].
Qed.

Lemma elem_of_addIfTruthy (histogram : gset Z) (sample : value) (z : Z) :
  z ∈ addIfTruthy histogram sample
  <-> z ∈ histogram \/ (sample = JsNum z /\ z <> 0).
Proof.
  destruct sample as [ | | n]; cbn.
  1, 2: split; [auto | intros [H | [H _]]; [exact H | discriminate]].
  destruct (Z.eqb_spec n 0) as [Hn | Hne]; cbn.
  - split; [auto | intros [H | [[= <-] Hz]]; [exact H | congruence]].
  - rewrite elem_of_union, elem_of_singleton. split.
    + intros [-> | H]; [right; split; [reflexivity | exact Hne] | left; exact H].
    + intros [H | [[= ->] _]]; [right; exact H | left; reflexivity].
Qed.

Lemma size_addIfTruthy (histogram : gset Z) (sample : value) :
  (size (addIfTruthy histogram sample) <= S (size histogram))%nat.
Proof.
  destruct sample as [ | | n]; cbn; try lia.
  destruct (negb (n =? 0)); [ | lia].
  rewrite size_union_alt, size_singleton.
  assert (size (histogram ∖ {[n]}) <= size histogram)%nat
    by (apply subseteq_size; intros x Hx; apply elem_of_difference in Hx; tauto).
  lia.
Qed.

(** What a pass reads and what its histograms hold afterwards. *)
Lemma pass_histograms (w : World) (v : Vars) (z : Z) :
  let p := pass elapse page options (w, v) in
  (z ∈ scrolls (snd (snd (fst p)))
   <-> z ∈ scrolls v \/ (z <> 0 /\ In (ReadScrollY (JsNum z)) (snd p)))
  /\ (z ∈ heights (snd (snd (fst p)))
      <-> z ∈ heights v \/ (z <> 0 /\ In (ReadBodyHeight (JsNum z)) (snd p))).
Proof.
  cbn zeta. destruct (fst (doScroll options (elapse ms w))) eqn:Hgo.
  - rewrite (pass_scroll_exact w v Hgo). cbn [fst snd scrolls heights].
    match goal with |- context [shouldContinue page options ?sc ?bc (?w2, ?v1)] =>
      pose proof (shouldContinue_result page options sc bc w2 v1) as [_ Hcons];
      generalize dependent (snd (shouldContinue page options sc bc (w2, v1)))
    end.
    intros consulted Hcons.
    assert (Hnot : forall e, In e consulted -> consultsStop e = true).
    { intros e He. rewrite Forall_forall in Hcons. apply Hcons.
      now apply list_elem_of_In. }
    rewrite !elem_of_addIfTruthy.
    match goal with |- context [scrollEvents ms ?ls ?bh ?sc ?bc ++ consulted] =>
      assert (Hy : In (ReadScrollY (JsNum z))
                     (scrollEvents ms ls bh sc bc ++ consulted) <-> ls = JsNum z);
      [ | assert (Hb : In (ReadBodyHeight (JsNum z))
                         (scrollEvents ms ls bh sc bc ++ consulted) <-> bh = JsNum z) ]
    end.
    { rewrite in_app_iff. split.
      - intros [H | H]; [cbn in H; intuition congruence | ].
        apply Hnot in H. discriminate.
      - intros ->. left. cbn. tauto. }
    { rewrite in_app_iff. split.
      - intros [H | H]; [cbn in H; intuition congruence | ].
        apply Hnot in H. discriminate.
      - intros ->. left. cbn. tauto. }
    rewrite Hy, Hb. tauto.
  - rewrite (pass_idle elapse page options w v Hgo). cbn.
    split; (split; [auto | intros [H | [_ [H | [H | []]]]]; [exact H | discriminate | discriminate]]).
Qed.

Lemma loop_histograms (n : nat) (w : World) (v : Vars) (z : Z) :
  let r := loop elapse page options n (w, v) in
  (z ∈ scrolls (snd (snd (fst r)))
   <-> z ∈ scrolls v \/ (z <> 0 /\ In (ReadScrollY (JsNum z)) (snd r)))
  /\ (z ∈ heights (snd (snd (fst r)))
      <-> z ∈ heights v \/ (z <> 0 /\ In (ReadBodyHeight (JsNum z)) (snd r))).
Proof.
  cbn zeta. revert w v. induction n as [ | n IH]; intros w v.
  - cbn. split; (split; [auto | intros [H | [_ []]]; exact H]).
  - rewrite loop_step. cbn zeta.
    pose proof (pass_histograms w v z) as Hpass. cbn zeta in Hpass.
    destruct (pass elapse page options (w, v)) as [[stop [w1 v1]] evs1].
    cbn [fst snd] in *. destruct stop; cbn [fst snd].
    + rewrite app_nil_r. exact Hpass.
    + specialize (IH w1 v1).
      destruct (loop elapse page options n (w1, v1)) as [[o [w2 v2]] evs2].
      cbn [fst snd] in *. destruct Hpass as [Hs Hh], IH as [IHs IHh].
      rewrite IHs, IHh, Hs, Hh. split; rewrite !in_app_iff; tauto.
Qed.

(** X6. The two histograms hold exactly the non-zero numbers that were
    read for the position and for the height so far. *)
Theorem histograms_hold_the_nonzero_samples (n : nat) (w : World) (z : Z) :
  let r := scrollUntil elapse page options n w in
  (z ∈ scrolls (snd (snd (fst r)))
   <-> z <> 0 /\ In (ReadScrollY (JsNum z)) (snd r))
  /\ (z ∈ heights (snd (snd (fst r)))
      <-> z <> 0 /\ In (ReadBodyHeight (JsNum z)) (snd r)).
Proof.
  cbn zeta. unfold scrollUntil.
  destruct (loop_histograms n w (mkVars ∅ ∅ 0%nat) z) as [Hs Hh].
  cbn [scrolls heights] in Hs, Hh.
  split; [rewrite Hs | rewrite Hh]; (split; [intros [H | H] | auto]);
    try exact H; exfalso; revert H; apply not_elem_of_empty.
Qed.

(** The one place of a pass where [maybeStop] is asked. *)
Lemma asked_in_pass (ls bh : value) (sc bc : bool) (asked tail : list event)
    (param : Params) (answer : bool) :
  asked = [] \/ asked = [QueriedSelectors false] ->
  In (AskedMaybeStop param answer) (scrollEvents ms ls bh sc bc ++ asked ++ tail) ->
  In (AskedMaybeStop param answer) tail.
Proof.
  intros Hasked Hin. rewrite !in_app_iff in Hin.
  destruct Hin as [Hin | [Hin | Hin]]; [ | | exact Hin].
  - cbn in Hin. repeat (destruct Hin as [Hin | Hin]; [discriminate | ]).
    destruct Hin.
  - destruct Hasked as [-> | ->]; cbn in Hin; [destruct Hin | ].
    destruct Hin as [Hin | []]. discriminate.
Qed.

Lemma pass_sizes (w : World) (v : Vars) :
  (size (scrolls v) <= counter v)%nat ->
  (size (heights v) <= counter v)%nat ->
  let p := pass elapse page options (w, v) in
  (forall param answer,
      In (AskedMaybeStop param answer) (snd p) ->
      (scrollSize param <= S (count param))%nat
      /\ (heightSize param <= S (count param))%nat)
  /\ (fst (fst p) = false ->
      (size (scrolls (snd (snd (fst p)))) <= counter (snd (snd (fst p))))%nat
      /\ (size (heights (snd (snd (fst p)))) <= counter (snd (snd (fst p))))%nat).
Proof.
  intros Hs Hh. cbn zeta.
  destruct (fst (doScroll options (elapse ms w))) eqn:Hgo.
  - rewrite (pass_scroll_exact w v Hgo). cbn [fst snd].
    match goal with |- context [scrollEvents ms ?ls ?bh _ _] =>
      generalize (size_addIfTruthy (scrolls v) ls)
                 (size_addIfTruthy (heights v) bh);
      generalize ls bh
    end.
    intros lastScroll bodyHeight Hs1 Hh1.
    match goal with |- context [shouldContinue page options ?sc ?bc (?w2, ?v1)] =>
      destruct (shouldContinue_cases sc bc w2 v1)
        as [(_ & _ & Hr) | (asked & w1 & Hasked & Hr)]
    end.
    + rewrite Hr. cbn [fst snd negb]. split; [ | discriminate].
      intros param answer Hin.
      apply (asked_in_pass lastScroll bodyHeight
               (isChanging (scrolls v) lastScroll)
               (isChanging (heights v) bodyHeight)
               [] [QueriedSelectors true] param answer (or_introl eq_refl)) in Hin.
      destruct Hin as [Hin | []]. discriminate.
    + assert (Hasked' : asked = [] \/ asked = [QueriedSelectors false]).
      { destruct Hasked as [(_ & -> & _) | (_ & _ & ->)]; auto. }
      destruct (maybeStop options) as [callback | ]; rewrite Hr; cbn [fst snd].
      * split.
        -- intros param answer Hin.
           apply (asked_in_pass lastScroll bodyHeight
                    (isChanging (scrolls v) lastScroll)
                    (isChanging (heights v) bodyHeight)
                    asked _ param answer Hasked') in Hin.
           destruct Hin as [Hin | []]. injection Hin as <- _. cbn. lia.
        -- intros Hcont. rewrite negb_false_iff in Hcont. rewrite Hcont.
           cbn. lia.
      * split.
        -- intros param answer Hin.
           exfalso.
           apply (asked_in_pass lastScroll bodyHeight
                    (isChanging (scrolls v) lastScroll)
                    (isChanging (heights v) bodyHeight)
                    asked [] param answer Hasked').
           rewrite app_nil_r. exact Hin.
        -- intros _. cbn. lia.
  - rewrite (pass_idle elapse page options w v Hgo). cbn [fst snd].
    split; [ | auto].
    intros param answer [Hin | [Hin | []]]; discriminate.
Qed.

Lemma loop_sizes (n : nat) (w : World) (v : Vars) :
  (size (scrolls v) <= counter v)%nat ->
  (size (heights v) <= counter v)%nat ->
  forall param answer,
    In (AskedMaybeStop param answer) (snd (loop elapse page options n (w, v))) ->
    (scrollSize param <= S (count param))%nat
    /\ (heightSize param <= S (count param))%nat.
Proof.
  revert w v. induction n as [ | n IH]; intros w v Hs Hh param answer Hin;
    [destruct Hin | ].
  rewrite loop_step in Hin. cbn zeta in Hin.
  destruct (pass_sizes w v Hs Hh) as [Hhere Hnext].
  destruct (pass elapse page options (w, v)) as [[stop [w1 v1]] evs1].
  cbn [fst snd] in *. destruct stop; cbn [fst snd] in Hin.
  - rewrite app_nil_r in Hin. exact (Hhere param answer Hin).
  - apply in_app_or in Hin.
    destruct Hin as [Hin | Hin]; [exact (Hhere param answer Hin) | ].
    destruct (Hnext eq_refl) as [Hs1 Hh1].
    exact (IH w1 v1 Hs1 Hh1 param answer Hin).
Qed.

(** X7. Whenever [maybeStop] is called, each of the two histogram sizes
    it is given is at most [count + 1]: a counted iteration adds at most
    one value to each histogram. *)
Theorem maybeStop_sizes_bounded_by_count
    (n : nat) (w : World) (param : Params) (answer : bool) :
  In (AskedMaybeStop param answer) (snd (scrollUntil elapse page options n w)) ->
  (scrollSize param <= S (count param))%nat
  /\ (heightSize param <= S (count param))%nat.
Proof.
  unfold scrollUntil. apply loop_sizes; cbn; rewrite size_empty; lia.
Qed.

End ScrollMore.

(** ** The collector loop when a call throws *)

Section RejectingFacts.

Import Rejecting.

Context {World Err : Type}.
Variable elapse : Z -> World -> World.
Variable page : Page World Err.
Variable options : ScrollUntilOptions World Err.

Abbreviation quiet := (Forall (fun e => Callers.stopAnswer e = false)).

(** Case analysis on the calls of one pass, in the order the pass makes
    them. *)
Ltac call f :=
  match goal with
  | |- context [f ?x] =>
      let H := fresh "Hcall" in
      destruct (f x) as [[? | ?] ?] eqn:H; cbn
  end.

Ltac calls :=
  cbn;
  try call (doScroll options);
  try match goal with |- context [if ?b then _ else _] => destruct b; cbn end;
  try match goal with |- context [scrollBy page ?x] =>
        let H := fresh "Hcall" in
        destruct (scrollBy page x) as [[? | ] ?] eqn:H; cbn end;
  try call (scrollY page);
  try call (scrollHeight page);
  try match goal with |- context [selectors options] =>
        destruct (selectors options) as [ | ? ?] eqn:?; cbn end;
  try match goal with |- context [anyVisible page ?l ?x] =>
        let H := fresh "Hcall" in
        destruct (anyVisible page l x) as [[? | [ | ]] ?] eqn:H; cbn end;
  try match goal with |- context [maybeStop options] =>
        destruct (maybeStop options) as [? | ] eqn:?; cbn end;
  try match goal with |- context [let '(_, _) := ?c ?p ?x in _] =>
        let H := fresh "Hcall" in
        destruct (c p x) as [[? | [ | ]] ?] eqn:H; cbn end.

Ltac open_pass :=
  unfold pass, sleep, shouldContinue, bind, perform, emit, ret, getVars, putVars.

Lemma rejecting_loop_step (n : nat) (s : World * Scroll.Vars) :
  loop elapse page options (S n) s
  = match fst (fst (pass elapse page options s)) with
    | inl e => (Rejected e, snd (fst (pass elapse page options s)),
                snd (pass elapse page options s))
    | inr true => (Resolved, snd (fst (pass elapse page options s)),
                   snd (pass elapse page options s))
    | inr false =>
        (fst (fst (loop elapse page options n
                     (snd (fst (pass elapse page options s))))),
         snd (fst (loop elapse page options n
                     (snd (fst (pass elapse page options s))))),
         snd (pass elapse page options s)
         ++ snd (loop elapse page options n
                   (snd (fst (pass elapse page options s)))))
    end.
Proof.
  cbn [loop].
  destruct (pass elapse page options s) as [[[e | [ | ]] s1] t1]; cbn [fst snd];
    try reflexivity.
  destruct (loop elapse page options n s1) as [[o s2] t2]. reflexivity.
Qed.

(** An error a pass ends with was thrown by one of its calls. *)
Lemma pass_throws (s : World * Scroll.Vars) (e : Err) :
  fst (fst (pass elapse page options s)) = inl e -> throws page options e.
Proof.
  destruct s as [w v]. open_pass. calls; intros [= <-] || discriminate.
  all: unfold throws.
  all: match goal with
       | H : doScroll options ?x = (inl _, _) |- _ =>
           do 4 right; left; exists x; rewrite H; reflexivity
       | H : scrollBy page ?x = (Some _, _) |- _ =>
           left; exists x; rewrite H; reflexivity
       | H : scrollY page ?x = (inl _, _) |- _ =>
           right; left; exists x; rewrite H; reflexivity
       | H : scrollHeight page ?x = (inl _, _) |- _ =>
           do 2 right; left; exists x; rewrite H; reflexivity
       | H : anyVisible page ?l ?x = (inl _, _) |- _ =>
           do 3 right; left; exists l, x; rewrite H; reflexivity
       | Hcb : maybeStop options = Some ?c, H : ?c ?p ?x = (inl _, _) |- _ =>
           do 5 right; exists c, p, x; rewrite H; split; [exact Hcb | reflexivity]
       end.
Qed.

Lemma loop_throws (n : nat) (s : World * Scroll.Vars) (e : Err) :
  fst (fst (loop elapse page options n s)) = Rejected e -> throws page options e.
Proof.
  revert s. induction n as [ | n IH]; intros s; [discriminate | ].
  rewrite rejecting_loop_step.
  destruct (fst (fst (pass elapse page options s))) as [e' | [ | ]] eqn:Hpass;
    cbn [fst snd].
  - intros [= ->]. exact (pass_throws s e Hpass).
  - discriminate.
  - apply IH.
Qed.

Section AtTop.

Variable callback : Scroll.Params -> World -> (Err + bool) * World.
Hypothesis Halways : forall w, fst (doScroll options w) = inr true.
Hypothesis Hsel : selectors options = [].
Hypothesis Hcb : maybeStop options = Some callback.
Hypothesis Hrely :
  forall param w,
    Scroll.scrollChanged param = true -> fst (callback param w) <> inr true.
Hypothesis Htop :
  forall w v, fst (scrollY page w) = inr v -> v = Scroll.JsNum 0.

Lemma pass_at_top (w : World) (v : Scroll.Vars) :
  0 ∉ Scroll.scrolls v ->
  match fst (fst (pass elapse page options (w, v))) with
  | inl _ => True
  | inr true => False
  | inr false =>
      (0 ∉ Scroll.scrolls (snd (snd (fst (pass elapse page options (w, v))))))
      /\ Scroll.counter (snd (snd (fst (pass elapse page options (w, v)))))
         = S (Scroll.counter v)
  end.
Proof.
  intros Hfree.
  assert (Hsc : Scroll.isChanging (Scroll.scrolls v) (Scroll.JsNum 0) = true)
    by now apply isChanging_num.
  open_pass. rewrite Hsel, Hcb. calls; try exact I.
  all: try match goal with H : doScroll options ?x = _ |- _ =>
             pose proof (Halways x) as Hgo; rewrite H in Hgo; discriminate Hgo end.
  all: match goal with H : scrollY page ?x = (inr ?ls, _) |- _ =>
         assert (Hzero : ls = Scroll.JsNum 0) by (apply (Htop x); now rewrite H);
         subst ls end.
  - match goal with H : callback ?p ?x = _ |- _ =>
      apply (Hrely p x); [exact Hsc | now rewrite H] end.
  - split; [exact Hfree | reflexivity].
Qed.

Lemma loop_at_top (n : nat) (w : World) (v : Scroll.Vars) :
  0 ∉ Scroll.scrolls v ->
  match fst (fst (loop elapse page options n (w, v))) with
  | Resolved => False
  | Scrolling =>
      Scroll.counter (snd (snd (fst (loop elapse page options n (w, v)))))
      = (Scroll.counter v + n)%nat
  | Rejected _ => True
  end.
Proof.
  revert w v. induction n as [ | n IH]; intros w v Hfree; [cbn; lia | ].
  rewrite rejecting_loop_step.
  pose proof (pass_at_top w v Hfree) as Hpass.
  destruct (fst (fst (pass elapse page options (w, v)))) as [e | [ | ]];
    cbn [fst snd]; [exact I | exact Hpass | ].
  destruct (snd (fst (pass elapse page options (w, v)))) as [w1 v1].
  cbn [fst snd] in Hpass. destruct Hpass as [Hfree1 Hcount].
  specialize (IH w1 v1 Hfree1).
  destruct (fst (fst (loop elapse page options n (w1, v1)))); [exact IH | | exact I].
  rewrite IH, Hcount. lia.
Qed.

End AtTop.


(** A pass emits a positive answer only to end the loop with it, as its
    last event; a pass that throws emits none. *)
Lemma pass_classified (s : World * Scroll.Vars) :
  match fst (fst (pass elapse page options s)) with
  | inr true =>
      exists pre e, snd (pass elapse page options s) = pre ++ [e]
                    /\ Callers.stopAnswer e = true /\ quiet pre
  | _ => quiet (snd (pass elapse page options s))
  end.
Proof.
  destruct s as [w v]. open_pass. calls.
  all: try (repeat constructor; fail).
  all: match goal with |- exists pre e, ?l = _ /\ _ =>
         exists (removelast l), (List.last l Scroll.ScrolledBy) end.
  all: cbn; repeat constructor.
Qed.


Lemma pass_without_stop_condition (s : World * Scroll.Vars) :
  selectors options = [] ->
  maybeStop options = None ->
  fst (fst (pass elapse page options s)) <> inr true.
Proof.
  intros Hsel Hnone. destruct s as [w v]. open_pass. rewrite Hsel, Hnone.
  calls; discriminate.
Qed.


End RejectingFacts.

(** ** The two models of the loop *)

Section Agreement.

Context {World Err : Type}.
Variable elapse : Z -> World -> World.
Variable page : Scroll.Page World.
Variable options : Scroll.ScrollUntilOptions World.

(** As long as no call throws, a pass is the pass without errors. *)
Lemma pass_total (s : World * Scroll.Vars) :
  Rejecting.pass elapse (@Rejecting.totalPage World Err page)
    (Rejecting.totalOptions options) s
  = (inr (fst (fst (Scroll.pass elapse page options s))),
     snd (fst (Scroll.pass elapse page options s)),
     snd (Scroll.pass elapse page options s)).
Proof.
  destruct s as [w v].
  unfold Rejecting.pass, Rejecting.sleep, Rejecting.shouldContinue, Rejecting.bind,
    Rejecting.perform, Rejecting.emit, Rejecting.ret, Rejecting.getVars,
    Rejecting.putVars.
  unfold Scroll.pass, Scroll.sleep, Scroll.shouldContinue, Scroll.bind,
    Scroll.perform, Scroll.emit, Scroll.ret, Scroll.getVars, Scroll.putVars.
  cbn.
  destruct (Scroll.doScroll options _) as [[ | ] w1]; cbn; [ | reflexivity].
  destruct (Scroll.scrollY page _) as [ls w2]; cbn.
  destruct (Scroll.scrollHeight page _) as [bh w3]; cbn.
  destruct (Scroll.selectors options) as [ | sel sels]; cbn.
  - destruct (Scroll.maybeStop options) as [callback | ]; cbn; [ | reflexivity].
    destruct (callback _ _) as [[ | ] w4]; reflexivity.
  - destruct (Scroll.anyVisible page _ _) as [[ | ] w4]; cbn; [reflexivity | ].
    destruct (Scroll.maybeStop options) as [callback | ]; cbn; [ | reflexivity].
    destruct (callback _ _) as [[ | ] w5]; reflexivity.
Qed.

(** Then the loop is never rejected, and it ends, changes the state
    and emits events as the loop without errors does. *)
Lemma loop_total (n : nat) (s : World * Scroll.Vars) :
  Rejecting.loop elapse (@Rejecting.totalPage World Err page)
    (Rejecting.totalOptions options) n s
  = (Rejecting.ofOutcome (fst (fst (Scroll.loop elapse page options n s))),
     snd (fst (Scroll.loop elapse page options n s)),
     snd (Scroll.loop elapse page options n s)).
Proof.
  revert s. induction n as [ | n IH]; intros s; [reflexivity | ].
  cbn [Rejecting.loop Scroll.loop]. rewrite pass_total. unfold Scroll.bind.
  destruct (Scroll.pass elapse page options s) as [[[ | ] s1] t1]; cbn [fst snd].
  - cbn. rewrite app_nil_r. reflexivity.
  - rewrite IH.
    destruct (Scroll.loop elapse page options n s1) as [[o s2] t2]. reflexivity.
Qed.

End Agreement.

(** When the third look at the position fails, the loop of
    [getServices] ends with that error, after two counted passes. *)
Lemma scrollUntil_rejected_when_page_closes :
  let options :=
    @Rejecting.servicesOptions nat string (fun _ w => w) (fun w => (inr true, w)) in
  let run := Rejecting.scrollUntil (fun _ w => w) Rejecting.stuckThenClosed
               options 5 0%nat in
  fst (fst run) = Rejecting.Rejected "Target closed"%string
  /\ Scroll.counter (snd (snd (fst run))) = 2%nat
  /\ List.last (snd run) Scroll.ScrolledBy = Scroll.Slept 300.
Proof. vm_compute. repeat split. Qed.

(** ** The counter in its callers *)

Section CounterMore.

Import Counter.

Variable minMax : Window.MinMaxDates.

Lemma run_app (cs1 cs2 : list call) (s : Stats) :
  snd (run minMax (cs1 ++ cs2) s) = snd (run minMax cs2 (snd (run minMax cs1 s))).
Proof.
  revert s. induction cs1 as [ | c cs1 IH]; intros s; [reflexivity | ].
  cbn [run app snd]. apply IH.
Qed.

(** The calls of a round that classify dates leave [total] and [empty]
    alone. *)
Lemma classify_keeps_total_empty (ts : list Moment.t) (s : Stats) :
  let s' := snd (run minMax (flat_map (fun t => [CallIsOver; CallTime t]) ts) s) in
  total s' = total s /\ empty s' = empty s.
Proof.
  cbn zeta. revert s. induction ts as [ | t ts IH]; intros s; [split; reflexivity | ].
  cbn [flat_map app run invoke snd].
  destruct (IH (snd (time minMax t s))) as [Ht He].
  destruct (time_counts minMax t s) as (_ & _ & _ & _ & Ht' & He').
  rewrite Ht, He. split; assumption.
Qed.

Lemma round_total_empty (round : Z * list Moment.t) (s : Stats) :
  let s' := snd (run minMax (Bookkeeping.roundCalls round) s) in
  total s' = total s + fst round
  /\ empty s' = empty s + (if fst round =? 0 then 0 else 1).
Proof.
  cbn zeta. unfold Bookkeeping.roundCalls. rewrite run_app.
  destruct (classify_keeps_total_empty (snd round)
              (snd (run minMax (Bookkeeping.recordBatch (fst round)) s)))
    as [Ht He].
  rewrite Ht, He. cbn. unfold recordEmpty.
  destruct (fst round =? 0); cbn; lia.
Qed.

Lemma rounds_total_empty (rounds : list (Z * list Moment.t)) (s : Stats) :
  let s' := snd (run minMax (flat_map Bookkeeping.roundCalls rounds) s) in
  total s' = total s + Bookkeeping.postsFound rounds
  /\ empty s' = empty s + Bookkeeping.nonEmptyRounds rounds.
Proof.
  cbn zeta. revert s. induction rounds as [ | round rounds IH]; intros s.
  - unfold Bookkeeping.postsFound, Bookkeeping.nonEmptyRounds. cbn. split; lia.
  - cbn [flat_map]. rewrite run_app.
    destruct (round_total_empty round s) as [Ht He]. cbn zeta in Ht, He.
    destruct (IH (snd (run minMax (Bookkeeping.roundCalls round) s))) as [Ht' He'].
    rewrite Ht', He', Ht, He.
    unfold Bookkeeping.postsFound, Bookkeeping.nonEmptyRounds.
    cbn [map fold_right List.filter].
    destruct (fst round =? 0); cbn [negb length]; split; lia.
Qed.

Lemma nonEmpty_le_found (rounds : list (Z * list Moment.t)) :
  Forall (fun round => 0 <= fst round) rounds ->
  Bookkeeping.nonEmptyRounds rounds <= Bookkeeping.postsFound rounds.
Proof.
  unfold Bookkeeping.nonEmptyRounds, Bookkeeping.postsFound.
  induction 1 as [ | round rounds Hr _ IH]; [cbn; lia | ].
  cbn [map fold_right List.filter].
  destruct (Z.eqb_spec (fst round) 0); cbn [negb length]; lia.
Qed.

(** The second disjunct of [isOver], in whole numbers. *)
Lemma isOver_by_empty (s : Stats) :
  0 <= empty s -> total s < 5 * empty s -> 0 < total s -> isOver s = true.
Proof.
  intros He Hlt Ht. unfold isOver, Js.truthy.
  apply orb_true_iff. right.
  destruct (Z.eqb_spec (empty s) 0) as [H0 | _]; [lia | ].
  destruct (Z.eqb_spec (total s) 0) as [H0 | _]; [lia | ].
  cbn [negb andb]. apply (ratio_gt_cross (empty s) (total s) 2 10); lia.
Qed.

(** X8. In [getPosts], [counter.empty] is given [!posts.length], so
    [empty] counts the rounds in which posts were found, while [total]
    counts the posts. The counter is over as soon as fewer than five
    posts per such round were found on average. *)
Theorem getPosts_counts_rounds_with_posts (rounds : list (Z * list Moment.t)) :
  Forall (fun round => 0 <= fst round) rounds ->
  let s := snd (run minMax (flat_map Bookkeeping.roundCalls rounds) initial) in
  empty s = Bookkeeping.nonEmptyRounds rounds
  /\ total s = Bookkeeping.postsFound rounds
  /\ (Bookkeeping.postsFound rounds < 5 * Bookkeeping.nonEmptyRounds rounds ->
      isOver s = true).
Proof.
  intros Hlen. cbn zeta.
  destruct (rounds_total_empty rounds initial) as [Ht He].
  cbn zeta in Ht, He. cbn [total empty initial] in Ht, He.
  rewrite Z.add_0_l in Ht, He.
  split; [exact He | ]. split; [exact Ht | ].
  intros Hfew. apply isOver_by_empty.
  - rewrite He. unfold Bookkeeping.nonEmptyRounds. lia.
  - now rewrite Ht, He.
  - rewrite Ht. pose proof (nonEmpty_le_found rounds Hlen) as Hpos.
    assert (0 <= Bookkeeping.nonEmptyRounds rounds)
      by (unfold Bookkeeping.nonEmptyRounds; lia).
    lia.
Qed.

(** X9. After the first round of [getPosts], before any date is
    classified, the counter is over exactly when one to four posts were
    found. *)
Theorem first_round_is_over_iff_one_to_four_posts (length : Z) :
  0 <= length ->
  (isOver (snd (run minMax (Bookkeeping.recordBatch length) initial)) = true
   <-> 1 <= length <= 4).
Proof.
  intros Hlen. cbn. unfold recordEmpty, add, isOver, Js.truthy. cbn.
  destruct (Z.eqb_spec length 0) as [-> | Hne]; cbn; [split; [discriminate | lia] | ].
  pose proof (ratio_gt_cross 1 length 2 10 ltac:(lia) ltac:(lia)) as Hratio.
  destruct (Z.eqb_spec (0 + length) 0) as [H0 | _]; [lia | ]. cbn.
  rewrite Z.add_0_l. rewrite Hratio. lia.
Qed.

(** With no upper bound, [older] stays where it is. *)
Lemma time_keeps_older (value : Moment.t) (s : Stats) :
  Window.maxDate minMax = None -> older (snd (time minMax value s)) = older s.
Proof.
  intros Hmax. destruct (time_counts minMax value s) as (_ & _ & Ho & _).
  rewrite Ho, Hmax. cbn. lia.
Qed.

(** X10. [getPostComments] counts against a window without upper bound
    and never calls [counter.empty]: whatever it adds and classifies,
    [counter.isOver()] is false. *)
Theorem isOver_false_without_upper_bound_and_empty (cs : list call) :
  Window.maxDate minMax = None ->
  forallb Bookkeeping.recordsNoEmpty cs = true ->
  isOver (snd (run minMax cs initial)) = false.
Proof.
  intros Hmax Hcs.
  assert (Hinv : forall s, older s = 0 -> empty s = 0 ->
                   older (snd (run minMax cs s)) = 0
                   /\ empty (snd (run minMax cs s)) = 0).
  { induction cs as [ | c cs IH]; intros s Ho He; [split; assumption | ].
    cbn [forallb] in Hcs. apply andb_true_iff in Hcs. destruct Hcs as [Hc Hcs].
    cbn [run snd]. apply (IH Hcs).
    - destruct c; cbn in Hc; try discriminate Hc; cbn [invoke snd];
        try assumption.
      now rewrite time_keeps_older.
    - destruct c; cbn in Hc; try discriminate Hc; cbn [invoke snd];
        try assumption.
      destruct (time_counts minMax value s) as (_ & _ & _ & _ & _ & Hempty).
      now rewrite Hempty. }
  destruct (Hinv initial eq_refl eq_refl) as [Ho He].
  unfold isOver, Js.truthy. rewrite Ho, He. cbn.
  now rewrite andb_false_r.
Qed.

(** X11. Whatever the window, an item that [time] counts in [newer] is
    also counted in [outOfRange]: [newer <= outOfRange] in every state
    a run can reach. *)
Theorem newer_at_most_outOfRange (s : Stats) :
  reachable minMax s -> newer s <= outOfRange s.
Proof.
  induction 1 as [ | c s Hs IH]; [cbn; lia | ].
  destruct c as [ | predicate | value | value | ]; cbn [invoke snd]; try exact IH.
  - unfold recordEmpty. destruct predicate; cbn; exact IH.
  - destruct (time_counts minMax value s) as (_ & Hout & _ & Hnew & _).
    rewrite Hout, Hnew.
    destruct (Js.gt (diffOrZero (Window.minDate minMax) value) (Js.Num 0)) eqn:Hgt;
      unfold step; [ | destruct (negb _); lia].
    apply diffOrZero_gt_iff in Hgt. destruct Hgt as (b & Hb & Hlt).
    assert (Hcmp : Window.compare minMax value = false).
    { apply not_true_iff_false. rewrite compare_true_iff.
      intros [Hlo _]. specialize (Hlo b Hb).
      destruct b, value; cbn in *; try tauto; lia. }
    rewrite Hcmp. cbn. lia.
Qed.

End CounterMore.

(** X12. A window accepts an interval of instants: what lies between two
    accepted instants is accepted. *)
Theorem compare_is_convex (w : Window.MinMaxDates) (a b c : Moment.t) :
  Window.compare w a = true -> Window.compare w c = true ->
  Moment.le a b -> Moment.le b c ->
  Window.compare w b = true.
Proof.
  rewrite !compare_true_iff. intros [Hlo _] [_ Hhi] Hab Hbc. split.
  - intros lower Hl. specialize (Hlo lower Hl).
    destruct lower, a, b; cbn in *; try tauto; lia.
  - intros upper Hu. specialize (Hhi upper Hu).
    destruct upper, b, c; cbn in *; try tauto; lia.
Qed.

(** ** [convertDate] *)

Section ConvertDateFacts.

Import ConvertDate.

Lemma digits_pos (fuel : nat) (n : Z) : (1 <= digits fuel n)%nat.
Proof. destruct fuel; cbn; [lia | ]. destruct (n <? 10); lia. Qed.

(** With enough fuel, [digits] counts up to the power of ten above. *)
Lemma digits_le_iff (fuel : nat) :
  forall (n : Z) (k : nat),
    0 <= n < 2 ^ Z.of_nat fuel -> (1 <= k)%nat ->
    ((digits fuel n <= k)%nat <-> n < 10 ^ Z.of_nat k).
Proof.
  induction fuel as [ | fuel IH]; intros n k Hn Hk.
  - cbn in *. assert (n = 0) as -> by lia.
    split; [intros _; apply Z.pow_pos_nonneg; lia | lia].
  - cbn [digits]. destruct (Z.ltb_spec n 10) as [Hlt | Hge].
    + split; [intros _ | lia].
      assert (10 ^ 1 <= 10 ^ Z.of_nat k) by (apply Z.pow_le_mono_r; lia).
      lia.
    + assert (Hfuel : 0 <= n / 10 < 2 ^ Z.of_nat fuel).
      { split; [apply Z.div_pos; lia | ].
        apply Z.div_lt_upper_bound; [lia | ].
        rewrite Nat2Z.inj_succ, Z.pow_succ_r in Hn by lia. lia. }
      destruct k as [ | k]; [lia | ].
      destruct k as [ | k].
      * pose proof (digits_pos fuel (n / 10)). cbn. lia.
      * rewrite <- Nat.succ_le_mono.
        rewrite (IH (n / 10) (S k) Hfuel ltac:(lia)).
        rewrite (Nat2Z.inj_succ (S k)), Z.pow_succ_r by lia.
        pose proof (Z.div_mod n 10 ltac:(lia)) as Hdiv.
        pose proof (Z.mod_pos_bound n 10 ltac:(lia)) as Hmod.
        generalize dependent (10 ^ Z.of_nat (S k)). intros P. lia.
Qed.

Lemma decimalLength_nonneg (z : Z) (k : nat) :
  0 <= z -> (1 <= k)%nat ->
  ((decimalLength z <= k)%nat <-> z < 10 ^ Z.of_nat k).
Proof.
  intros Hz Hk. unfold decimalLength.
  destruct (Z.ltb_spec z 0) as [Hneg | _]; [lia | ].
  apply digits_le_iff; [ | exact Hk].
  split; [exact Hz | ].
  destruct (Z.eq_dec z 0) as [-> | Hnz]; [apply Z.pow_pos_nonneg; lia | ].
  rewrite Nat2Z.inj_succ, Z2Nat.id by apply Z.log2_nonneg.
  apply Z.log2_spec. lia.
Qed.

(** A non-negative number has fewer than 13 characters exactly below
    10^12. *)
Lemma shorter_than_13 (z : Z) :
  0 <= z -> (Nat.ltb (decimalLength z) 13 = true <-> z < 10 ^ 12).
Proof.
  intros Hz. rewrite Nat.ltb_lt.
  rewrite <- (decimalLength_nonneg z 12 Hz ltac:(lia)). lia.
Qed.

Variable parse : string -> option Z.
Variable toNumber : string -> number.

(** The value for a positive number a [Date] can hold. *)
Lemma convertDate_number (y : Z) :
  0 < y <= maxTime ->
  convertDate parse toNumber (Number y)
  = Finite (if y <? 10 ^ 12 then y * 1000 else y).
Proof.
  intros Hy. unfold convertDate, falsy, timeClip, maxTime in *.
  destruct (Z.eqb_spec y 0) as [H0 | _]; [lia | ].
  destruct (Z.leb_spec (Z.abs y) 8640000000000000) as [_ | Hbig]; [ | lia].
  pose proof (shorter_than_13 y ltac:(lia)) as Hshort.
  destruct (Nat.ltb (decimalLength y) 13) eqn:Hlen.
  - assert (Hlt : y < 10 ^ 12) by now apply Hshort.
    destruct (Z.ltb_spec y (10 ^ 12)) as [_ | Hge]; [ | lia].
    apply Nat.ltb_lt in Hlen.
    destruct (Nat.leb_spec 13 (decimalLength y)) as [Hle | _]; [lia | ].
    destruct (Z.leb_spec (Z.abs (y * 1000)) 8640000000000000) as [_ | Hbig];
      [reflexivity | lia].
  - destruct (Z.ltb_spec y (10 ^ 12)) as [Hlt | _]; [ | reflexivity].
    apply Hshort in Hlt. discriminate.
Qed.

(** X13. A positive number below 10^12 is taken for seconds and
    multiplied by 1000; from 10^12 on it is taken for milliseconds and
    returned as it is. So from 10^9 seconds (2001-09-09) on, a time in
    seconds and the same time in milliseconds convert to the same
    value. *)
Theorem convertDate_of_seconds_and_milliseconds (z : Z) :
  0 < z <= maxTime ->
  convertDate parse toNumber (Number z)
  = Finite (if z <? 10 ^ 12 then z * 1000 else z)
  /\ (10 ^ 9 <= z < 10 ^ 12 ->
      convertDate parse toNumber (Number (z * 1000))
      = convertDate parse toNumber (Number z)).
Proof.
  intros Hz. split; [now apply convertDate_number | ].
  intros Hsec. unfold maxTime in *.
  rewrite !convertDate_number by (unfold maxTime; lia).
  destruct (Z.ltb_spec (z * 1000) (10 ^ 12)) as [Hlt | _]; [lia | ].
  destruct (Z.ltb_spec z (10 ^ 12)) as [_ | Hge]; [reflexivity | lia].
Qed.

(** X14. The date of a post, [+utime * 1000], comes out of [convertDate]
    as the same instant exactly when it is on or after 10^9 seconds;
    an earlier one is multiplied by 1000 once more. *)
Theorem convertDate_keeps_post_dates_from_2001 (utime : Z) :
  0 < utime <= 8640000000000 ->
  (moment (convertDate parse toNumber (publishedTime utime))
   = Moment.Valid (utime * 1000)
   <-> 10 ^ 9 <= utime)
  /\ (utime < 10 ^ 9 ->
      convertDate parse toNumber (publishedTime utime)
      = Finite (utime * 1000000)).
Proof.
  intros Hu. unfold publishedTime.
  rewrite (convertDate_number (utime * 1000)) by (unfold maxTime; lia).
  destruct (Z.ltb_spec (utime * 1000) (10 ^ 12)) as [Hlt | Hge].
  - split.
    + unfold moment, timeClip, maxTime.
      destruct (Z.abs (utime * 1000 * 1000) <=? 8640000000000000);
        split; try lia; intros [= H]; lia.
    + intros _. f_equal. lia.
  - split; [ | lia].
    unfold moment, timeClip, maxTime.
    destruct (Z.leb_spec (Z.abs (utime * 1000)) 8640000000000000) as [_ | Hbig];
      [ | lia].
    split; [lia | reflexivity].
Qed.

(** X15. Without a date ([null], [undefined], [0]) the result is
    [Infinity], which is no date for moment: every window with a bound
    rejects it, and only the window without bounds accepts it. *)
Theorem missing_date_passes_only_unbounded_window (w : Window.MinMaxDates) :
  convertDate parse toNumber Absent = PlusInfinity
  /\ convertDate parse toNumber (Number 0) = PlusInfinity
  /\ (Window.compare w (moment (convertDate parse toNumber Absent)) = true
      <-> Window.minDate w = None /\ Window.maxDate w = None).
Proof.
  split; [reflexivity | ]. split; [reflexivity | ].
  cbn. unfold Window.compare.
  destruct (Window.minDate w) as [[mn | ] | ], (Window.maxDate w) as [[mx | ] | ];
    cbn; split; try discriminate; try tauto; intros [H1 H2]; discriminate.
Qed.

End ConvertDateFacts.

(** ** [uniqueNonEmptyArray] and [evaluateFilterMap] *)

Section ArraysFacts.

Import Arrays.

Context {A : Type} `{EqDecision A}.
Variable truthy : A -> bool.

Lemma setAdd_elem_of (elements : list A) (x y : A) :
  y ∈ setAdd elements x <-> y ∈ elements \/ y = x.
Proof.
  unfold setAdd. destruct (decide (x ∈ elements)) as [Hin | Hout].
  - split; [auto | intros [H | ->]; assumption].
  - rewrite elem_of_app, list_elem_of_singleton. tauto.
Qed.

Lemma setAdd_NoDup (elements : list A) (x : A) :
  NoDup elements -> NoDup (setAdd elements x).
Proof.
  intros Hnd. unfold setAdd. destruct (decide (x ∈ elements)) as [Hin | Hout];
    [exact Hnd | ].
  apply NoDup_app. split; [exact Hnd | ]. split; [ | apply NoDup_singleton].
  intros y Hy Hx. apply list_elem_of_singleton in Hx. subst y. contradiction.
Qed.

Lemma fold_setAdd (value elements : list A) :
  NoDup elements ->
  NoDup (fold_left setAdd value elements)
  /\ (forall y, y ∈ fold_left setAdd value elements <-> y ∈ elements \/ y ∈ value)
  /\ exists added, fold_left setAdd value elements = elements ++ added
                   /\ added `sublist_of` value.
Proof.
  revert elements. induction value as [ | x value IH]; intros elements Hnd.
  - cbn. split; [exact Hnd | ]. split.
    + intros y. rewrite elem_of_nil. tauto.
    + exists []. rewrite app_nil_r. split; [reflexivity | constructor].
  - cbn [fold_left].
    destruct (IH (setAdd elements x) (setAdd_NoDup elements x Hnd))
      as (Hnd' & Hmem & added & Heq & Hsub).
    split; [exact Hnd' | ]. split.
    + intros y. rewrite Hmem, setAdd_elem_of, elem_of_cons. tauto.
    + rewrite Heq. unfold setAdd.
      destruct (decide (x ∈ elements)) as [Hin | Hout].
      * exists added. split; [reflexivity | now apply sublist_cons].
      * exists (x :: added). rewrite <- app_assoc. split; [reflexivity | ].
        now apply sublist_skip.
Qed.

(** The elements of the result. *)
Lemma uniqueNonEmptyArray_elements (value : list A) :
  NoDup (uniqueNonEmptyArray truthy value)
  /\ (forall x, x ∈ uniqueNonEmptyArray truthy value
                <-> x ∈ value /\ truthy x = true).
Proof.
  unfold uniqueNonEmptyArray, spreadSet.
  destruct (fold_setAdd value [] (NoDup_nil_2))
    as (Hnd & Hmem & _). split.
  - apply NoDup_ListNoDup, List.NoDup_filter, NoDup_ListNoDup, Hnd.
  - intros x. rewrite list_elem_of_In, filter_In, <- list_elem_of_In, Hmem.
    rewrite elem_of_nil. tauto.
Qed.

(** X16. The result of [uniqueNonEmptyArray] has no element twice and no
    falsy element, holds exactly the truthy elements of the array, and
    keeps them in the order of the array. *)
Theorem uniqueNonEmptyArray_unique_truthy_ordered (value : list A) :
  NoDup (uniqueNonEmptyArray truthy value)
  /\ (forall x, x ∈ uniqueNonEmptyArray truthy value
                <-> x ∈ value /\ truthy x = true)
  /\ uniqueNonEmptyArray truthy value `sublist_of` value.
Proof.
  destruct (uniqueNonEmptyArray_elements value) as [Hnd Hmem].
  split; [exact Hnd | ]. split; [exact Hmem | ].
  unfold uniqueNonEmptyArray, spreadSet.
  destruct (fold_setAdd value [] (NoDup_nil_2)) as (_ & _ & added & Heq & Hsub).
  cbn [app] in Heq. rewrite Heq. etransitivity; [ | exact Hsub].
  clear. induction added as [ | x added IH]; cbn; [constructor | ].
  destruct (truthy x); [now apply sublist_skip | now apply sublist_cons].
Qed.

Lemma fold_setAdd_prefix (value elements : list A) :
  exists added, fold_left setAdd value elements = elements ++ added.
Proof.
  revert elements. induction value as [ | x value IH]; intros elements.
  - exists []. now rewrite app_nil_r.
  - cbn [fold_left]. destruct (IH (setAdd elements x)) as [added ->].
    unfold setAdd. destruct (decide (x ∈ elements)); [now exists added | ].
    exists (x :: added). now rewrite <- app_assoc.
Qed.

Lemma filter_fold_setAdd_head (value elements : list A) :
  List.filter truthy elements = [] ->
  head (List.filter truthy (fold_left setAdd value elements))
  = head (List.filter truthy value).
Proof.
  revert elements. induction value as [ | x value IH]; intros elements Hfalsy.
  - cbn. now rewrite Hfalsy.
  - cbn [fold_left List.filter]. unfold setAdd at 2.
    destruct (decide (x ∈ elements)) as [Hin | Hout].
    + assert (Hx : truthy x = false).
      { destruct (truthy x) eqn:Hx; [ | reflexivity].
        assert (Hin' : In x (List.filter truthy elements))
          by (apply filter_In; split; [now apply list_elem_of_In | exact Hx]).
        rewrite Hfalsy in Hin'. destruct Hin'. }
      rewrite Hx. now apply IH.
    + destruct (truthy x) eqn:Hx.
      * destruct (fold_setAdd_prefix value (elements ++ [x])) as [added ->].
        rewrite !List.filter_app, Hfalsy. cbn. rewrite Hx. reflexivity.
      * apply IH. rewrite List.filter_app, Hfalsy. cbn. now rewrite Hx.
Qed.

(** X17. The first element of the result, which [getFieldInfos] takes
    for the fields with one value, is the first truthy element of the
    array; and applying [uniqueNonEmptyArray] twice changes nothing. *)
Theorem uniqueNonEmptyArray_head_and_idempotent (value : list A) :
  head (uniqueNonEmptyArray truthy value) = head (List.filter truthy value)
  /\ uniqueNonEmptyArray truthy (uniqueNonEmptyArray truthy value)
     = uniqueNonEmptyArray truthy value.
Proof.
  split; [now apply filter_fold_setAdd_head | ].
  destruct (uniqueNonEmptyArray_elements value) as [Hnd Hmem].
  generalize dependent (uniqueNonEmptyArray truthy value). intros l Hnd Hmem.
  assert (Htruthy : forall x, x ∈ l -> truthy x = true)
    by (intros x Hx; now apply Hmem).
  clear Hmem. unfold uniqueNonEmptyArray, spreadSet.
  assert (Hfold : forall elements,
             (forall x, x ∈ l -> x ∉ elements) ->
             fold_left setAdd l elements = elements ++ l).
  { clear Htruthy. induction Hnd as [ | x l Hx Hnd IH]; intros elements Hfresh.
    - now rewrite app_nil_r.
    - cbn [fold_left]. unfold setAdd at 2.
      destruct (decide (x ∈ elements)) as [Hin | _].
      + exfalso. apply (Hfresh x); [constructor | exact Hin].
      + rewrite IH; [now rewrite <- app_assoc | ].
        intros y Hy Hin. apply elem_of_app in Hin. destruct Hin as [Hin | Hin].
        * apply (Hfresh y); [now constructor | exact Hin].
        * apply list_elem_of_singleton in Hin. subst y. contradiction. }
  rewrite Hfold by (intros x _; apply not_elem_of_nil). cbn [app].
  clear Hfold Hnd. induction l as [ | x l IH]; [reflexivity | ].
  cbn. rewrite (Htruthy x) by constructor.
  f_equal. apply IH. intros y Hy. apply Htruthy. now constructor.
Qed.

Context {E R World : Type}.
Variable evaluate : E -> World -> evaluated R * World.

(** X18. [evaluateFilterMap] evaluates every element once, in order,
    each on the page the ones before it left, whatever they did: it
    returns the values of the elements that returned one, in order,
    and leaves out those that threw or returned [undefined] or [null].
    So its result on a list is its result on a first part followed by
    its result on the rest. *)
Theorem evaluateFilterMap_goes_through_all (els1 els2 : list E) (w : World) :
  fst (evaluateFilterMap evaluate els1 w)
  = omap kept (outcomes evaluate els1 w)
  /\ snd (evaluateFilterMap evaluate els1 w)
     = fold_left (fun w el => snd (evaluate el w)) els1 w
  /\ length (outcomes evaluate els1 w) = length els1
  /\ evaluateFilterMap evaluate (els1 ++ els2) w
     = (fst (evaluateFilterMap evaluate els1 w)
        ++ fst (evaluateFilterMap evaluate els2
                  (snd (evaluateFilterMap evaluate els1 w))),
        snd (evaluateFilterMap evaluate els2
               (snd (evaluateFilterMap evaluate els1 w)))).
Proof.
  split; [ | split; [ | split]].
  - revert w. induction els1 as [ | el els1 IH]; intros w; [reflexivity | ].
    cbn [evaluateFilterMap outcomes omap].
    specialize (IH (snd (evaluate el w))).
    destruct (evaluate el w) as [outcome w1]. cbn [fst snd] in *.
    destruct (evaluateFilterMap evaluate els1 w1) as [values w2].
    cbn [fst] in IH. subst values. destruct outcome; reflexivity.
  - revert w. induction els1 as [ | el els1 IH]; intros w; [reflexivity | ].
    cbn [evaluateFilterMap fold_left].
    specialize (IH (snd (evaluate el w))).
    destruct (evaluate el w) as [outcome w1]. cbn [fst snd] in *.
    destruct (evaluateFilterMap evaluate els1 w1) as [values w2].
    cbn [snd] in IH. subst w2. destruct outcome; reflexivity.
  - revert w. induction els1 as [ | el els1 IH]; intros w; [reflexivity | ].
    cbn [outcomes length]. now rewrite IH.
  - revert w. induction els1 as [ | el els1 IH]; intros w.
    + cbn. now destruct (evaluateFilterMap evaluate els2 w).
    + cbn [app evaluateFilterMap].
      destruct (evaluate el w) as [outcome w1].
      rewrite IH.
      destruct (evaluateFilterMap evaluate els1 w1) as [values1 w2].
      destruct outcome; cbn;
        destruct (evaluateFilterMap evaluate els2 w2) as [values2 w3];
        reflexivity.
Qed.

End ArraysFacts.

(** ** [createPageSelector] *)

Section PageSelectorFacts.

Import PageSelector.

Context {World E R Err : Type}.
Variable selector namespace : string.
Variable page : Page World E Err.

(** X19. When the selector is not on the page at the first look and a
    wait was asked for, the function fails whatever the wait brings,
    even the element: it rethrows the error of the wait when that is
    not the timeout, and throws the not-found error otherwise, on the
    page as the wait left it. [map] is not called: it plays no part in
    the result. *)
Theorem pageSelector_fails_once_it_has_to_wait
    (map map' : list E -> World -> (Err + R) * World) (wait : Z) (w : World) :
  fst (query page selector w) = false -> 0 < wait ->
  let waiting := waitForSelector page selector wait (snd (query page selector w)) in
  pageSelector selector namespace map page wait w
  = (inl match fst waiting with
         | OtherError e => Rethrown e
         | Appeared | TimeoutError => SelectorNotFound namespace selector
         end,
     snd waiting)
  /\ pageSelector selector namespace map page wait w
     = pageSelector selector namespace map' page wait w.
Proof.
  intros Habsent Hwait. cbn zeta. unfold pageSelector.
  destruct (query page selector w) as [found w1]. cbn in Habsent. subst found.
  cbn [negb fst snd]. destruct (Z.ltb_spec 0 wait) as [_ | Hle]; [ | lia].
  destruct (waitForSelector page selector wait w1) as [[ | | e] w2];
    cbn [fst snd]; split; reflexivity.
Qed.

End PageSelectorFacts.

(** ** [proxyConfiguration] *)

Section ProxyFacts.

Import Proxy.

Lemma includes_In (l : list string) (x : string) :
  includes l x = true <-> In x l.
Proof.
  unfold includes. rewrite existsb_exists. split.
  - intros (y & Hy & Heq). apply String.eqb_eq in Heq. now subst.
  - intros Hx. exists x. split; [exact Hx | apply String.eqb_refl].
Qed.

(** X20. What a returned configuration is good for. When a proxy is
    required, it is there, it uses the Apify proxy or has proxy URLs of
    its own, and it gives a URL; and when the check is forced and the
    configuration uses the Apify proxy, none of its groups is on the
    blacklist. *)
Theorem proxyConfiguration_returns_usable
    (configuration result : option ProxyConfiguration)
    (required force : bool) (blacklist hint : list string) :
  fst (proxyConfiguration configuration required force blacklist hint) = inr result ->
  result = configuration
  /\ (required = true ->
      exists c, configuration = Some c
                /\ (usesApifyProxy c = true
                    \/ exists url urls, proxyUrls c = Some (url :: urls))
                /\ newUrl c <> ""%string)
  /\ (force = true ->
      forall c gs group,
        configuration = Some c -> usesApifyProxy c = true ->
        groups c = Some gs -> In group gs -> ~ In group blacklist).
Proof.
  unfold proxyConfiguration. intros Hres.
  destruct configuration as [c | ].
  - destruct (required && _) eqn:Hreq; [discriminate | ].
    assert (Hsame : result = Some c).
    { destruct (force && usesApifyProxy c); [ | now injection Hres].
      destruct (existsb (inGroups c) blacklist); [discriminate | ].
      now injection Hres. }
    split; [exact Hsame | ]. split.
    + intros ->. cbn in Hreq. exists c. split; [reflexivity | ].
      apply orb_false_iff in Hreq. destruct Hreq as [Huse Hurl]. split.
      * destruct (usesApifyProxy c); [now left | right].
        cbn in Huse. unfold noProxyUrls in Huse.
        destruct (proxyUrls c) as [[ | url urls] | ]; try discriminate. eauto.
      * unfold emptyString in Hurl. intros Hempty. rewrite Hempty in Hurl.
        discriminate.
    + intros -> c' gs group [= <-] Huse Hgs Hin Hblack.
      rewrite Huse in Hres. cbn in Hres.
      destruct (existsb (inGroups c) blacklist) eqn:Hex; [discriminate | ].
      apply not_true_iff_false in Hex. apply Hex.
      apply existsb_exists. exists group. split; [exact Hblack | ].
      unfold inGroups. rewrite Hgs. now apply includes_In.
  - destruct required; cbn in Hres; [discriminate | ].
    injection Hres as <-. split; [reflexivity | ].
    split; [discriminate | ]. intros _ c gs group [=].
Qed.

End ProxyFacts.

(** ** [resourceCache] *)

Section ResourceCacheFacts.

Import ResourceCache.

Variable cacheable : string -> bool.

Lemma nonempty_length (b : string) :
  Nat.ltb 0 (String.length b) = true -> b <> ""%string.
Proof. destruct b; [discriminate | discriminate]. Qed.

Lemma onRequest_sound (seen : list response) (s : state)
    (url : string) (type : resourceType) :
  sound seen s ->
  sound seen (mkState (snd (onRequest cacheable url type (cache s))) (pending s))
  /\ (forall body ct hs,
         fst (onRequest cacheable url type (cache s)) = RespondCached body ct hs ->
         cacheable url = true
         /\ exists res entry,
             In res seen /\ storedFrom url entry res
             /\ body = content entry /\ ct = contentType entry
             /\ hs = headers entry).
Proof.
  intros [Hcache Hpending].
  assert (Hmark : sound seen (mkState (<[url := notLoaded]> (cache s)) (pending s))).
  { split; [ | exact Hpending]. cbn [cache]. intros url' entry Hlook Hloaded.
    destruct (decide (url = url')) as [<- | Hne].
    - rewrite lookup_insert_eq in Hlook. injection Hlook as <-. discriminate.
    - rewrite lookup_insert_ne in Hlook by exact Hne. now apply Hcache. }
  assert (Hsame : sound seen (mkState (cache s) (pending s))) by now split.
  unfold onRequest. destruct type.
  - destruct (includes ".jpg" url || includes ".jpeg" url);
      [split; [exact Hsame | discriminate] | ].
    destruct (includes ".png" url); [split; [exact Hsame | discriminate] | ].
    destruct (includes ".gif" url); split; try exact Hsame; discriminate.
  - cbn [isScriptOrStylesheet andb].
    destruct (cacheable url) eqn:Hc; [ | split; [exact Hsame | discriminate]].
    destruct (cache s !! url) as [entry | ] eqn:Hlook;
      [ | split; [exact Hmark | discriminate]].
    destruct (loaded entry) eqn:Hloaded; [ | split; [exact Hmark | discriminate]].
    split; [exact Hsame | ]. intros body ct hs [= <- <- <-].
    split; [reflexivity | ].
    destruct (Hcache url entry Hlook Hloaded) as (res & Hseen & Hfrom).
    exists res, entry. auto.
  - cbn [isScriptOrStylesheet andb].
    destruct (cacheable url) eqn:Hc; [ | split; [exact Hsame | discriminate]].
    destruct (cache s !! url) as [entry | ] eqn:Hlook;
      [ | split; [exact Hmark | discriminate]].
    destruct (loaded entry) eqn:Hloaded; [ | split; [exact Hmark | discriminate]].
    split; [exact Hsame | ]. intros body ct hs [= <- <- <-].
    split; [reflexivity | ].
    destruct (Hcache url entry Hlook Hloaded) as (res & Hseen & Hfrom).
    exists res, entry. auto.
  - split; [exact Hsame | discriminate].
Qed.

Lemma run_sound (events : list event) :
  forall (seen : list response) (s : state),
    sound seen s ->
    forall url body ct hs,
      In (url, RespondCached body ct hs) (fst (run cacheable events s)) ->
      cacheable url = true
      /\ exists res,
          (In res seen \/ In (Responded res) events)
          /\ resUrl res = url
          /\ body = Some (resBuffer res)
          /\ resBuffer res <> ""%string
          /\ ct = resHeaders res !! "content-type"%string
          /\ hs = Some (keptHeaders (resHeaders res)).
Proof.
  induction events as [ | e events IH]; intros seen s Hsound url body ct hs Hin;
    [destruct Hin | ].
  cbn [run] in Hin.
  destruct e as [url' type | res | i]; cbn [step fst snd] in Hin.
  - destruct (onRequest_sound seen s url' type Hsound) as [Hnext Hanswer].
    destruct Hin as [Heq | Hin].
    + injection Heq as -> Heq.
      destruct (Hanswer body ct hs Heq)
        as (Hc & res & entry & Hseen & (Hu & Hb & Hne & Hct & Hhs) & -> & -> & ->).
      split; [exact Hc | ]. exists res. repeat split; auto.
    + destruct (IH seen _ Hnext url body ct hs Hin) as (Hc & r & Hr & Hrest).
      split; [exact Hc | ]. exists r. split; [ | exact Hrest].
      destruct Hr as [Hr | Hr]; [now left | right; now right].
  - assert (Hnext : sound (res :: seen)
                      (if onResponse res (cache s)
                       then mkState (cache s) (pending s ++ [res]) else s)).
    { destruct Hsound as [Hcache Hpending].
      destruct (onResponse res (cache s)); split; cbn [cache pending].
      - intros u entry Hl Hlo. destruct (Hcache u entry Hl Hlo) as (r & Hr & Hf).
        exists r. split; [now right | exact Hf].
      - intros r Hr. apply in_app_or in Hr.
        destruct Hr as [Hr | [<- | []]]; [right; now apply Hpending | now left].
      - intros u entry Hl Hlo. destruct (Hcache u entry Hl Hlo) as (r & Hr & Hf).
        exists r. split; [now right | exact Hf].
      - intros r Hr. right. now apply Hpending. }
    destruct (IH (res :: seen) _ Hnext url body ct hs Hin) as (Hc & r & Hr & Hrest).
    split; [exact Hc | ]. exists r. split; [ | exact Hrest].
    destruct Hr as [[<- | Hr] | Hr]; [right; now left | now left | right; now right].
  - assert (Hnext : sound seen
                      match pending s !! i with
                      | Some res => mkState (store res (cache s)) (delete i (pending s))
                      | None => s
                      end).
    { destruct (pending s !! i) as [res | ] eqn:Hi; [ | exact Hsound].
      destruct Hsound as [Hcache Hpending].
      assert (Hres : In res seen).
      { apply Hpending, list_elem_of_In, list_elem_of_lookup. eauto. }
      split; cbn [cache pending].
      - intros u entry Hl Hlo. unfold store in Hl.
        destruct (decide (resUrl res = u)) as [<- | Hne].
        + rewrite lookup_insert_eq in Hl. injection Hl as <-. cbn in Hlo.
          exists res. split; [exact Hres | ].
          repeat split. now apply nonempty_length.
        + rewrite lookup_insert_ne in Hl by exact Hne. now apply Hcache.
      - intros r Hr. apply Hpending.
        apply list_elem_of_In in Hr. apply list_elem_of_In.
        eapply list_elem_of_delete_inv. exact Hr. }
    destruct (IH seen _ Hnext url body ct hs Hin) as (Hc & r & Hr & Hrest).
    split; [exact Hc | ]. exists r. split; [ | exact Hrest].
    destruct Hr as [Hr | Hr]; [now left | right; now right].
Qed.

(** X21. Whatever happens on the page, and in whatever order the bodies
    arrive, a request is answered from the cache only for a url that
    matches the paths, and only with the body, content type and headers
    of a response for that url, the body not being empty. *)
Theorem cache_answers_only_with_stored_responses
    (events : list event) (url : string) (body ct : option string)
    (hs : option (gmap string string)) :
  In (url, RespondCached body ct hs) (fst (run cacheable events initial)) ->
  cacheable url = true
  /\ exists res,
      In (Responded res) events
      /\ resUrl res = url
      /\ body = Some (resBuffer res)
      /\ resBuffer res <> ""%string
      /\ ct = resHeaders res !! "content-type"%string
      /\ hs = Some (keptHeaders (resHeaders res)).
Proof.
  intros Hin.
  destruct (run_sound events [] initial) with (url := url) (body := body)
    (ct := ct) (hs := hs) as (Hc & res & [[] | Hres] & Hrest).
  - split; [ | intros res []]. intros u entry Hl. cbn in Hl.
    rewrite lookup_empty in Hl. discriminate.
  - exact Hin.
  - split; [exact Hc | ]. exists res. split; [exact Hres | exact Hrest].
Qed.

(** X22. A script or stylesheet that matches the paths goes to the
    network the first time; once its response has brought a body, the
    next request for it is answered from the cache with that body,
    unless the body was empty, in which case the request goes to the
    network again. *)
Theorem second_request_is_answered_from_cache
    (s : state) (res : response) (type : resourceType) :
  isScriptOrStylesheet type = true ->
  isScriptOrStylesheet (resType res) = true ->
  cacheable (resUrl res) = true ->
  pending s = [] ->
  (forall entry, cache s !! resUrl res = Some entry -> loaded entry = false) ->
  fst (run cacheable
         [Requested (resUrl res) type; Responded res; Buffered 0;
          Requested (resUrl res) type] s)
  = [(resUrl res, Continue);
     (resUrl res,
      if Nat.ltb 0 (String.length (resBuffer res))
      then RespondCached (Some (resBuffer res))
             (resHeaders res !! "content-type"%string)
             (Some (keptHeaders (resHeaders res)))
      else Continue)].
Proof.
  intros Htype Hrtype Hc Hpending Hfresh.
  assert (Hfirst : onRequest cacheable (resUrl res) type (cache s)
                   = (Continue, <[resUrl res := notLoaded]> (cache s))).
  { unfold onRequest. destruct type; try discriminate; cbn; rewrite Hc;
      (destruct (cache s !! resUrl res) as [entry | ] eqn:Hl; [ | reflexivity]);
      now rewrite (Hfresh entry eq_refl). }
  cbn [run step fst snd]. rewrite Hfirst. cbn [fst snd cache pending].
  unfold onResponse. rewrite Hrtype, lookup_insert_eq. cbn [andb loaded notLoaded negb].
  cbn [cache pending]. rewrite Hpending. cbn [app lookup list_lookup].
  cbn [cache pending]. unfold store, onRequest. rewrite lookup_insert_eq.
  cbn [loaded content contentType headers].
  destruct type; try discriminate; cbn [isScriptOrStylesheet andb];
    rewrite Hc; destruct (Nat.ltb 0 (String.length (resBuffer res)));
    reflexivity.
Qed.

End ResourceCacheFacts.

(** ** The persisted state *)

Section PersistFacts.

Import Persist.

Context {K V : Type} `{EqDecision K}.

Lemma mapSet_keys (key : K) (value : V) (entries : list (K * V)) :
  map fst (mapSet key value entries)
  = if decide (key ∈ map fst entries) then map fst entries
    else map fst entries ++ [key].
Proof.
  induction entries as [ | [k v] rest IH]; cbn; [now rewrite decide_False by apply not_elem_of_nil | ].
  destruct (decide (k = key)) as [-> | Hne]; cbn.
  - rewrite decide_True by constructor. reflexivity.
  - rewrite IH. destruct (decide (key ∈ map fst rest)) as [Hin | Hout].
    + rewrite decide_True by now constructor. reflexivity.
    + rewrite decide_False; [reflexivity | ].
      intros Hin. apply elem_of_cons in Hin. destruct Hin as [-> | Hin]; auto.
Qed.

Lemma mapSet_NoDup (key : K) (value : V) (entries : list (K * V)) :
  NoDup (map fst entries) -> NoDup (map fst (mapSet key value entries)).
Proof.
  intros Hnd. rewrite mapSet_keys.
  destruct (decide (key ∈ map fst entries)) as [Hin | Hout]; [exact Hnd | ].
  apply NoDup_app. split; [exact Hnd | ]. split; [ | apply NoDup_singleton].
  intros k Hk Hk'. apply list_elem_of_singleton in Hk'. now subst.
Qed.

Lemma mapSet_fresh (key : K) (value : V) (entries : list (K * V)) :
  key ∉ map fst entries -> mapSet key value entries = entries ++ [(key, value)].
Proof.
  induction entries as [ | [k v] rest IH]; intros Hout; [reflexivity | ].
  cbn in *. destruct (decide (k = key)) as [-> | Hne].
  - exfalso. apply Hout. constructor.
  - rewrite IH; [reflexivity | ]. intros Hin. apply Hout. now constructor.
Qed.

Lemma fold_mapSet_NoDup (pairs m : list (K * V)) :
  NoDup (map fst m) ->
  NoDup (map fst (fold_left (fun m kv => mapSet (fst kv) (snd kv) m) pairs m)).
Proof.
  revert m. induction pairs as [ | [k v] pairs IH]; intros m Hnd; [exact Hnd | ].
  cbn [fold_left fst snd]. apply IH. now apply mapSet_NoDup.
Qed.

Lemma fold_mapSet_fresh (pairs m : list (K * V)) :
  NoDup (map fst (m ++ pairs)) ->
  fold_left (fun m kv => mapSet (fst kv) (snd kv) m) pairs m = m ++ pairs.
Proof.
  revert m. induction pairs as [ | [k v] pairs IH]; intros m Hnd;
    [now rewrite app_nil_r | ].
  cbn [fold_left fst snd].
  assert (Hout : k ∉ map fst m).
  { rewrite map_app in Hnd. apply NoDup_app in Hnd.
    destruct Hnd as (_ & Hdisj & _). intros Hin. apply (Hdisj k Hin).
    cbn. constructor. }
  rewrite mapSet_fresh by exact Hout.
  rewrite IH; [now rewrite <- app_assoc | ].
  now rewrite <- app_assoc.
Qed.

(** X23. Whatever the store holds, the state made of it has each key
    once; and a state that is saved and restored is the same state,
    with the same keys in the same order and the same values (the store
    giving back what it was given). *)
Theorem persisted_state_restores (stored : option (list (K * V))) :
  let state := newMap stored in
  NoDup (map fst state)
  /\ newMap (Some (snapshot state)) = state.
Proof.
  cbn zeta. assert (Hnd : NoDup (map fst (newMap stored))).
  { destruct stored as [pairs | ]; cbn; [ | constructor].
    apply fold_mapSet_NoDup. constructor. }
  split; [exact Hnd | ].
  unfold newMap at 1, snapshot. now rewrite fold_mapSet_fresh.
Qed.

End PersistFacts.

(** ** [getReviews] *)

Section ReviewsFacts.

Import Reviews.

Context {Review : Type}.
Variable url : Review -> option string.

(** X24. One reading of the page never takes the reviews beyond [max]
    when it starts below it; started at [max] or above, it can still
    add one review before it looks at the size. And when it has called
    [finish.resolve()], the size is at least [max]. *)
Theorem getReviewsFromPage_stops_at_max
    (max : nat) (found : list Review) (reviews : gmap string Review) :
  let r := getReviewsFromPage url max found reviews in
  ((size reviews < max)%nat -> (size (fst r) <= max)%nat)
  /\ ((max <= size reviews)%nat -> (size (fst r) <= S (size reviews))%nat)
  /\ (snd r = true -> (max <= size (fst r))%nat)
  /\ reviews ⊆ fst r.
Proof.
  cbn zeta. revert reviews. induction found as [ | review rest IH]; intros reviews.
  - cbn. repeat split; try lia; try discriminate. reflexivity.
  - cbn [getReviewsFromPage].
    set (reviews1 := match isNew url review reviews with
                     | Some u => <[u := review]> reviews
                     | None => reviews
                     end).
    assert (Hgrow : (size reviews <= size reviews1 <= S (size reviews))%nat
                    /\ reviews ⊆ reviews1).
    { unfold reviews1, isNew.
      destruct (url review) as [u | ]; [ | split; [lia | reflexivity]].
      destruct (Nat.eqb (String.length u) 0); [split; [lia | reflexivity] | ].
      destruct (reviews !! u) eqn:Hl; [split; [lia | reflexivity] | ].
      split; [rewrite map_size_insert_None by exact Hl; lia | ].
      now apply insert_subseteq. }
    destruct Hgrow as [Hsize Hsub].
    destruct (Nat.leb_spec max (size reviews1)) as [Hfull | Hroom]; cbn [fst snd].
    + split; [lia | ]. split; [lia | ]. split; [lia | exact Hsub].
    + destruct (IH reviews1) as (Hbelow & _ & Hres & Hsub').
      split; [intros _; now apply Hbelow | ].
      split; [lia | ]. split; [exact Hres | ].
      etransitivity; eassumption.
Qed.

End ReviewsFacts.

(** ** The properties above, at concrete inputs *)

Lemma scrollUntil_stops_by_count_witness :
  let options := @Callers.fieldInfosOptions unit "see-more" "transparency" in
  (forall w, fst (Scroll.doScroll options w) = true)
  /\ fst (fst (Scroll.scrollUntil (fun _ w => w) Scroll.stillPage options 7 tt))
     = Scroll.Stopped.
Proof.
  intros options.
  assert (Halways : forall w, fst (Scroll.doScroll options w) = true)
    by reflexivity.
  split; [exact Halways | ].
  apply (scrollUntil_stops_by_count (fun _ w => w) Scroll.stillPage options 5
           Callers.fieldInfosMaybeStop tt Halways eq_refl).
  intros param w Hgt. unfold Callers.fieldInfosMaybeStop. cbn [fst].
  apply Nat.ltb_lt. exact Hgt.
Defined.

Lemma scrollUntil_stops_on_stalled_page_witness :
  let options := @Callers.postUrlsOptions unit (fun w => w) (fun _ => false)
                   (fun _ => false) in
  Scroll.JsNum 4000 <> Scroll.JsNum 0
  /\ fst (fst (Scroll.scrollUntil (fun _ w => w) Callers.stalledPage options 22 tt))
     = Scroll.Stopped.
Proof.
  intros options.
  split; [discriminate | ].
  apply (scrollUntil_stops_on_stalled_page (fun _ w => w) Callers.stalledPage
           options 20
           (Callers.postUrlsMaybeStop (fun w => w) (fun _ => false) (fun _ => false))
           (Scroll.JsNum 4000) (Scroll.JsNum 5000) tt).
  - reflexivity.
  - reflexivity.
  - intros param w Hgt Hsc Hbc. unfold Callers.postUrlsMaybeStop. cbn [fst].
    rewrite Hsc, Hbc. apply Nat.ltb_lt in Hgt. rewrite Hgt. reflexivity.
  - reflexivity.
  - reflexivity.
  - discriminate.
  - discriminate.
Defined.



Lemma maybeStop_sizes_bounded_by_count_witness :
  let options := @Callers.reviewsOptions unit (fun w => w) (fun _ => false) in
  let param := Scroll.mkParams 0 true true 1 1 in
  In (Scroll.AskedMaybeStop param false)
     (snd (Scroll.scrollUntil (fun _ w => w) Callers.stalledPage options 1 tt))
  /\ (Scroll.scrollSize param <= S (Scroll.count param))%nat.
Proof.
  intros options param.
  assert (Hin : In (Scroll.AskedMaybeStop param false)
                  (snd (Scroll.scrollUntil (fun _ w => w) Callers.stalledPage
                          options 1 tt))).
  { vm_compute. do 9 right. left. reflexivity. }
  split; [exact Hin | ].
  exact (proj1 (maybeStop_sizes_bounded_by_count (fun _ w => w)
                  Callers.stalledPage options 1 tt param false Hin)).
Defined.

Lemma getPosts_counts_rounds_with_posts_witness :
  let minMax := Window.mkMinMaxDates (Some (Moment.Valid 100)) (Some (Moment.Valid 900)) in
  let rounds := [(3, [Moment.Valid 500; Moment.Valid 50]); (0, []); (2, [])] in
  Forall (fun round : Z * list Moment.t => 0 <= fst round) rounds
  /\ Counter.empty
       (snd (Counter.run minMax (flat_map Bookkeeping.roundCalls rounds)
               Counter.initial)) = 2
  /\ Counter.isOver
       (snd (Counter.run minMax (flat_map Bookkeeping.roundCalls rounds)
               Counter.initial)) = true.
Proof.
  intros minMax rounds.
  assert (Hlen : Forall (fun round : Z * list Moment.t => 0 <= fst round) rounds)
    by (repeat constructor; cbn; lia).
  split; [exact Hlen | ].
  destruct (getPosts_counts_rounds_with_posts minMax rounds Hlen)
    as (Hempty & _ & Hover).
  split; [exact Hempty | ].
  apply Hover. vm_compute. reflexivity.
Defined.

Lemma first_round_is_over_iff_one_to_four_posts_witness :
  let minMax := Window.mkMinMaxDates None None in
  0 <= 3
  /\ Counter.isOver
       (snd (Counter.run minMax (Bookkeeping.recordBatch 3) Counter.initial))
     = true.
Proof.
  intros minMax. split; [lia | ].
  apply (first_round_is_over_iff_one_to_four_posts minMax 3); lia.
Defined.

Lemma isOver_false_without_upper_bound_and_empty_witness :
  let minMax := Window.mkMinMaxDates (Some (Moment.Valid 100)) None in
  let calls := [Counter.CallAdd 5; Counter.CallTime (Moment.Valid 50);
                Counter.CallTime (Moment.Valid 60); Counter.CallAdd 1;
                Counter.CallTime (Moment.Valid 70)] in
  Window.maxDate minMax = None
  /\ forallb Bookkeeping.recordsNoEmpty calls = true
  /\ Counter.isOver (snd (Counter.run minMax calls Counter.initial)) = false.
Proof.
  intros minMax calls.
  split; [reflexivity | ]. split; [reflexivity | ].
  apply isOver_false_without_upper_bound_and_empty; reflexivity.
Defined.

Lemma newer_at_most_outOfRange_witness :
  let minMax := Window.mkMinMaxDates (Some (Moment.Valid 100)) (Some (Moment.Valid 900)) in
  let s := snd (Counter.run minMax
                  [Counter.CallTime (Moment.Valid 50);
                   Counter.CallTime (Moment.Valid 950)] Counter.initial) in
  Counter.reachable minMax s
  /\ Counter.newer s <= Counter.outOfRange s.
Proof.
  intros minMax s.
  assert (Hs : Counter.reachable minMax s) by (apply run_reachable; constructor).
  split; [exact Hs | ].
  exact (newer_at_most_outOfRange minMax s Hs).
Defined.

Lemma compare_is_convex_witness :
  let w := Window.mkMinMaxDates (Some (Moment.Valid 100)) (Some (Moment.Valid 900)) in
  Window.compare w (Moment.Valid 100) = true
  /\ Window.compare w (Moment.Valid 900) = true
  /\ Window.compare w (Moment.Valid 500) = true.
Proof.
  intros w. split; [reflexivity | ]. split; [reflexivity | ].
  apply (compare_is_convex w (Moment.Valid 100) (Moment.Valid 500) (Moment.Valid 900));
    [reflexivity | reflexivity | cbn; lia | cbn; lia].
Defined.

Lemma convertDate_of_seconds_and_milliseconds_witness :
  0 < 1577836800 <= ConvertDate.maxTime
  /\ ConvertDate.convertDate (fun _ => None) (fun _ => ConvertDate.NotANumber)
       (ConvertDate.Number 1577836800)
     = ConvertDate.Finite 1577836800000.
Proof.
  assert (Hz : 0 < 1577836800 <= ConvertDate.maxTime)
    by (unfold ConvertDate.maxTime; lia).
  split; [exact Hz | ].
  exact (proj1 (convertDate_of_seconds_and_milliseconds (fun _ => None)
                  (fun _ => ConvertDate.NotANumber) 1577836800 Hz)).
Defined.

Lemma convertDate_keeps_post_dates_from_2001_witness :
  0 < 999999999 <= 8640000000000
  /\ ConvertDate.convertDate (fun _ => None) (fun _ => ConvertDate.NotANumber)
       (ConvertDate.publishedTime 999999999)
     = ConvertDate.Finite 999999999000000.
Proof.
  assert (Hu : 0 < 999999999 <= 8640000000000) by lia.
  split; [exact Hu | ].
  apply (proj2 (convertDate_keeps_post_dates_from_2001 (fun _ => None)
                  (fun _ => ConvertDate.NotANumber) 999999999 Hu)).
  lia.
Defined.

Lemma pageSelector_fails_once_it_has_to_wait_witness :
  fst (PageSelector.query Samples.latePage "abbr"%string tt) = false
  /\ 0 < 5000
  /\ PageSelector.pageSelector "abbr"%string "posts"%string
       Samples.countElements Samples.latePage 5000 tt
     = (inl (PageSelector.SelectorNotFound "posts"%string "abbr"%string), tt)
  /\ PageSelector.pageSelector "abbr"%string "posts"%string
       Samples.countElements Samples.brokenPage 5000 tt
     = (inl (PageSelector.Rethrown "Target closed"%string), tt).
Proof.
  split; [reflexivity | ]. split; [lia | ].
  split.
  - exact (proj1 (pageSelector_fails_once_it_has_to_wait "abbr"%string
                    "posts"%string Samples.latePage Samples.countElements
                    Samples.countElements 5000 tt eq_refl ltac:(lia))).
  - exact (proj1 (pageSelector_fails_once_it_has_to_wait "abbr"%string
                    "posts"%string Samples.brokenPage Samples.countElements
                    Samples.countElements 5000 tt eq_refl ltac:(lia))).
Defined.

Lemma proxyConfiguration_returns_usable_witness :
  fst (Proxy.proxyConfiguration (Some Samples.residential) true true
         ["GOOGLESERP"%string] [])
  = inr (Some Samples.residential)
  /\ ~ In "RESIDENTIAL"%string ["GOOGLESERP"%string].
Proof.
  assert (Hres : fst (Proxy.proxyConfiguration (Some Samples.residential) true true
                        ["GOOGLESERP"%string] [])
                 = inr (Some Samples.residential)) by reflexivity.
  split; [exact Hres | ].
  destruct (proxyConfiguration_returns_usable _ _ _ _ _ _ Hres) as (_ & _ & Hforce).
  apply (Hforce eq_refl Samples.residential ["RESIDENTIAL"%string]);
    [reflexivity | reflexivity | reflexivity | now left].
Defined.

Lemma cache_answers_only_with_stored_responses_witness :
  let url := ResourceCache.resUrl Samples.scriptResponse in
  let events := [ResourceCache.Requested url ResourceCache.Script;
                 ResourceCache.Responded Samples.scriptResponse;
                 ResourceCache.Buffered 0;
                 ResourceCache.Requested url ResourceCache.Stylesheet] in
  In (url, ResourceCache.RespondCached (Some "console.log(1)"%string) None (Some ∅))
     (fst (ResourceCache.run (fun _ => true) events ResourceCache.initial))
  /\ exists res, In (ResourceCache.Responded res) events
                 /\ ResourceCache.resBuffer res = "console.log(1)"%string.
Proof.
  intros url events.
  assert (Hin : In (url, ResourceCache.RespondCached
                           (Some "console.log(1)"%string) None (Some ∅))
                  (fst (ResourceCache.run (fun _ => true) events
                          ResourceCache.initial)))
    by (right; left; reflexivity).
  split; [exact Hin | ].
  destruct (cache_answers_only_with_stored_responses (fun _ => true) events url
              _ _ _ Hin) as (_ & res & Hres & _ & Hbody & _).
  exists res. split; [exact Hres | ]. now injection Hbody.
Defined.

Lemma second_request_is_answered_from_cache_witness :
  let url := ResourceCache.resUrl Samples.scriptResponse in
  ResourceCache.pending ResourceCache.initial = []
  /\ fst (ResourceCache.run (fun _ => true)
            [ResourceCache.Requested url ResourceCache.Script;
             ResourceCache.Responded Samples.scriptResponse;
             ResourceCache.Buffered 0;
             ResourceCache.Requested url ResourceCache.Script]
            ResourceCache.initial)
     = [(url, ResourceCache.Continue);
        (url, ResourceCache.RespondCached (Some "console.log(1)"%string) None
                (Some ∅))].
Proof.
  intros url. split; [reflexivity | ].
  apply (second_request_is_answered_from_cache (fun _ => true)
           ResourceCache.initial Samples.scriptResponse ResourceCache.Script);
    try reflexivity.
  intros entry Hl. cbn in Hl. rewrite lookup_empty in Hl. discriminate.
Defined.

Lemma getReviewsFromPage_stops_at_max_witness :
  let url := fun review : string => Some review in
  let r := Reviews.getReviewsFromPage url 2 ["a"; "b"; "c"]%string ∅ in
  (size (∅ : gmap string string) < 2)%nat
  /\ (size (fst r) <= 2)%nat
  /\ snd r = true.
Proof.
  intros url r.
  assert (Hbelow : (size (∅ : gmap string string) < 2)%nat)
    by (rewrite map_size_empty; lia).
  split; [exact Hbelow | ].
  split; [ | reflexivity].
  exact (proj1 (getReviewsFromPage_stops_at_max url 2 ["a"; "b"; "c"]%string ∅)
           Hbelow).
Defined.

(** C5 as stated fails on a window with a bound that is no date: the
    lower bound was given as a string that moment cannot parse, the
    window is constructed all the same, and [compare] rejects both of
    its own bounds, the upper one, 100, and the lower one, the invalid
    date. *)
Lemma compare_rejects_bound_beside_invalid_date :
  let w := Window.mkMinMaxDates (Some Moment.Invalid) (Some (Moment.Valid 100)) in
  Window.minMaxDates Samples.falsyBound Samples.momentOfBound
    (Window.mkMinMax Samples.Unparsable (Samples.Millis 100))
  = Window.Returns w
  /\ Window.maxDate w = Some (Moment.Valid 100)
  /\ Window.compare w (Moment.Valid 100) = false
  /\ Window.minDate w = Some Moment.Invalid
  /\ Window.compare w Moment.Invalid = false.
Proof. repeat split. Qed.
